(** * strip-chinese: a verification development

    Shallow embedding of [scripts/strip-chinese.py] and the properties of
    its three text transformations: the line cleaner
    ([remove_chinese_line]), the markdown line processor
    ([process_markdown_file]) and the code comment processor
    ([process_code_file]).

    Python strings are sequences of Unicode code points, so a character is
    a code point ([N]) and a string is a list of them.  The regular
    expressions of the script are embedded through one generic model of
    [re.sub] ([re_sub]) that is instantiated with one matcher per pattern. *)

From Stdlib Require Import String Ascii.
From stdpp Require Import base numbers list.

Local Open Scope N_scope.

(** ** Characters and strings *)

Definition char := N.
Definition str := list char.

(** ASCII literals of the script, as code points. *)
Definition text (s : string) : str :=
  List.map N_of_ascii (list_ascii_of_string s).

Definition NL : char := 10.
Definition SPACE : char := 32.
Definition DQUOTE : char := 34.
Definition LPAREN : char := 40.
Definition RPAREN : char := 41.
Definition STAR : char := 42.
Definition DASH : char := 45.
Definition SLASH : char := 47.
Definition LBRACKET : char := 91.
Definition RBRACKET : char := 93.

(** [一-鿿]: the CJK Unified Ideographs block. *)
Definition is_chinese (c : char) : bool :=
  (0x4e00 <=? c) && (c <=? 0x9fff).

(** [a-zA-Z] *)
Definition is_latin (c : char) : bool :=
  ((97 <=? c) && (c <=? 122)) || ((65 <=? c) && (c <=? 90)).

(** Python's notion of white space for [str]: the predicate behind [\s]
    in a [str] pattern, [str.strip()] without argument and [str.isspace()]. *)
Definition isspace (c : char) : bool :=
  ((9 <=? c) && (c <=? 13)) || ((28 <=? c) && (c <=? 32))
  || (c =? 0x85) || (c =? 0xa0) || (c =? 0x1680)
  || ((0x2000 <=? c) && (c <=? 0x200a))
  || (c =? 0x2028) || (c =? 0x2029) || (c =? 0x202f) || (c =? 0x205f)
  || (c =? 0x3000).

(** ** Python string operations used by the script *)

(** Length of the longest prefix whose characters all satisfy [p]. *)
Fixpoint span (p : char -> bool) (s : str) : nat :=
  match s with
  | c :: r => if p c then S (span p r) else O
  | [] => O
  end.

(** [s.lstrip()], [s.rstrip()], [s.strip()] *)
Definition lstrip (s : str) : str := drop (span isspace s) s.
Definition rstrip (s : str) : str := reverse (lstrip (reverse s)).
Definition strip (s : str) : str := lstrip (rstrip s).

(** [s.isspace()]: non-empty and white space only. *)
Definition str_isspace (s : str) : bool :=
  match s with [] => false | _ => forallb isspace s end.

(** Truth value of a string: non-empty. *)
Definition truthy (s : str) : bool :=
  match s with [] => false | _ => true end.

(** [s.replace(p, '')] for a one-character [p]. *)
Definition replace_char (p : char) (s : str) : str :=
  List.filter (fun c => negb (c =? p)) s.

(** [s.startswith(p)] *)
Fixpoint startswith (p s : str) : bool :=
  match p, s with
  | [], _ => true
  | a :: p', b :: s' => (a =? b) && startswith p' s'
  | _ :: _, [] => false
  end.

(** [p in s] *)
Fixpoint contains (p s : str) : bool :=
  startswith p s || match s with [] => false | _ :: r => contains p r end.

(** [s.split('\n')]: always at least one piece. *)
Fixpoint split_nl (s : str) : list str :=
  match s with
  | [] => [[]]
  | c :: r =>
      if c =? NL then [] :: split_nl r
      else match split_nl r with
           | p :: ps => (c :: p) :: ps
           | [] => [[c]]
           end
  end.

(** ['\n'.join(ls)] *)
Fixpoint join_nl (ls : list str) : str :=
  match ls with
  | [] => []
  | [l] => l
  | l :: rest => l ++ NL :: join_nl rest
  end.

(** ** A model of [re.sub]

    [re.sub(pattern, repl, s)] scans [s] from left to right; at the first
    position where the pattern matches, the match is replaced by [repl]
    applied to it and the scan resumes behind the match; a character at
    which the pattern does not match is copied.  None of the script's
    patterns looks behind the current position ([^], [\b], look-behind) and
    none can match the empty string, so a pattern is embedded as a
    [matcher]: given the rest of the subject from the current position on,
    the length of the match that Python's backtracking matcher finds there,
    if any. *)

Definition matcher := str -> option nat.

(** [skip] counts the characters of the current match that are still to be
    passed over. *)
Fixpoint re_sub_from (m : matcher) (repl : str -> str) (skip : nat) (s : str) : str :=
  match s with
  | [] => []
  | c :: r =>
      match skip with
      | S k => re_sub_from m repl k r
      | O =>
          match m s with
          | Some (S n) => repl (take (S n) s) ++ re_sub_from m repl n r
          | _ => c :: re_sub_from m repl O r
          end
      end
  end.

Definition re_sub (m : matcher) (repl : str -> str) (s : str) : str :=
  re_sub_from m repl O s.

(** The replacement string [''] *)
Definition delete : str -> str := fun _ => [].

(** *** The patterns of the script *)

(** [[一-鿿]+] (greedy). *)
Definition m_chinese_run : matcher := fun s =>
  match span is_chinese s with
  | O => None
  | n => Some n
  end.

(** [\s+/\s*$] without [re.MULTILINE].  [\s+] takes the longest run of
    white space (a shorter one would have to be followed by a white-space
    [/]); behind the slash [\s*] must reach a position where [$] holds,
    the end of the subject or the position before a final newline, and
    both mean that only white space follows: the greedy match runs to the
    end of the subject. *)
Definition m_slash_tail : matcher := fun s =>
  match span isspace s with
  | O => None
  | a =>
      match drop a s with
      | c :: r => if (c =? SLASH) && forallb isspace r then Some (length s) else None
      | [] => None
      end
  end.

(** [\s+-\s+$] without [re.MULTILINE]: as above, with at least one
    white-space character behind the hyphen. *)
Definition m_dash_tail : matcher := fun s =>
  match span isspace s with
  | O => None
  | a =>
      match drop a s with
      | c :: r => if (c =? DASH) && str_isspace r then Some (length s) else None
      | [] => None
      end
  end.

(** [\(\s*\)] and [\[\s*\]]: an opening mark, the longest run of white
    space, the closing mark. *)
Definition m_empty_pair (op cl : char) : matcher := fun s =>
  match s with
  | c :: r =>
      if c =? op then
        match drop (span isspace r) r with
        | d :: _ => if d =? cl then Some (span isspace r + 2)%nat else None
        | [] => None
        end
      else None
  | [] => None
  end.

Definition not_newline (c : char) : bool := negb (c =? NL).

(** [//.*$] with [re.MULTILINE]: [.] is any character but a newline and
    the greedy [.*] runs to the end of the line, where [$] holds. *)
Definition m_line_comment : matcher := fun s =>
  match s with
  | a :: b :: r =>
      if (a =? SLASH) && (b =? SLASH)
      then Some (2 + span not_newline r)%nat
      else None
  | _ => None
  end.

(** Offset of the first [*/] in [s]. *)
Fixpoint find_close (s : str) : option nat :=
  match s with
  | [] => None
  | a :: r =>
      match r with
      | b :: _ =>
          if (a =? STAR) && (b =? SLASH) then Some O
          else option_map S (find_close r)
      | [] => None
      end
  end.

(** [/\*.*?\*/] with [re.DOTALL]: the lazy [.*?] stops at the first [*/]
    behind the opening mark. *)
Definition m_block_comment : matcher := fun s =>
  match s with
  | a :: b :: r =>
      if (a =? SLASH) && (b =? STAR)
      then option_map (fun k => (k + 4)%nat) (find_close r)
      else None
  | _ => None
  end.

(** ** The script *)

Definition has_chinese (s : str) : bool := existsb is_chinese s.

(** [re.search(r'[a-zA-Z]', line)] *)
Definition has_latin (s : str) : bool := existsb is_latin s.

(** The literal [chinese_punct] as Python reads it: the twelve full-width
    marks, then [""] (the quote characters of the source are U+0022 and
    U+0027, so the two apostrophes close the literal and open the next,
    which holds U+3001 and is concatenated). *)
Definition chinese_punct : str :=
  [0xff0c; 0x3002; 0xff1b; 0xff1a; 0xff1f; 0xff01; 0xff08; 0xff09;
   0x3010; 0x3011; 0x300a; 0x300b; DQUOTE; DQUOTE; 0x3001].

Definition remove_chinese_line (line : str) : str :=
  let line := re_sub m_chinese_run delete line in
  let line := fold_left (fun l punct => replace_char punct l) chinese_punct line in
  let line := re_sub m_slash_tail delete line in
  let line := re_sub m_dash_tail delete line in
  let line := re_sub (m_empty_pair LPAREN RPAREN) delete line in
  let line := re_sub (m_empty_pair LBRACKET RBRACKET) delete line in
  strip line.


(** *** [process_markdown_file]

    The file is read with [readlines()] and written with [writelines()]; the
    function below is the transformation of the line sequence in between. *)

Record classify_state := ClassifyState {
  new_lines : list str;
  skip_next : bool
}.

(** One iteration of the first loop. *)
Definition classify_step (st : classify_state) (line : str) : classify_state :=
  if skip_next st then ClassifyState (new_lines st) false
  else if has_chinese line && negb (has_latin line) then st
  else if has_chinese line then
    let cleaned := remove_chinese_line line in
    if truthy cleaned && negb (str_isspace cleaned)
    then ClassifyState (new_lines st ++ [cleaned ++ [NL]]) (skip_next st)
    else st
  else ClassifyState (new_lines st ++ [line]) (skip_next st).

Definition classify_lines (lines : list str) : list str :=
  new_lines (fold_left classify_step lines (ClassifyState [] false)).

Record collapse_state := CollapseState {
  final_lines : list str;
  prev_empty : bool
}.

(** [not line.strip()] *)
Definition is_empty_line (line : str) : bool := negb (truthy (strip line)).

(** One iteration of the second loop. *)
Definition collapse_step (st : collapse_state) (line : str) : collapse_state :=
  let is_empty := is_empty_line line in
  if is_empty && prev_empty st then st
  else CollapseState (final_lines st ++ [line]) is_empty.

Definition collapse_blank (lines : list str) : list str :=
  final_lines (fold_left collapse_step lines (CollapseState [] false)).

Definition process_markdown_file (lines : list str) : list str :=
  collapse_blank (classify_lines lines).

(** [f.readlines()] on text whose line ends are already [\n]: the lines
    with their terminators; only the last one can lack it. *)
Fixpoint readlines (content : str) : list str :=
  match content with
  | [] => []
  | c :: r =>
      if c =? NL then [c] :: readlines r
      else match readlines r with
           | l :: ls => (c :: l) :: ls
           | [] => [[c]]
           end
  end.

(** *** [process_code_file]

    The file is read whole and written whole; the function below is the
    transformation of the content in between. *)

Definition replace_comment (comment : str) : str :=
  if has_chinese comment then
    let cleaned := remove_chinese_line comment in
    if truthy cleaned then text "//" ++ cleaned else text "//"
  else comment.

(** What one line of a block comment appends to [new_lines]. *)
Definition block_line (line : str) : list str :=
  if contains (text "/*") line || contains (text "*/") line then [line]
  else if has_chinese line then
    let cleaned := remove_chinese_line line in
    if truthy cleaned then
      if startswith (text "*") (strip line) then [SPACE :: cleaned]
      else [cleaned]
    else []
  else [line].

Definition replace_multiline_comment (comment : str) : str :=
  if has_chinese comment then
    join_nl (fold_left (fun acc line => acc ++ block_line line) (split_nl comment) [])
  else comment.

Definition line_comment_pass (content : str) : str :=
  re_sub m_line_comment replace_comment content.

Definition block_comment_pass (content : str) : str :=
  re_sub m_block_comment replace_multiline_comment content.

Definition process_code_file (content : str) : str :=
  block_comment_pass (line_comment_pass content).

(** * Vocabulary of the statements

    Auxiliary definitions the properties below are stated with. *)

(** ** White space at the ends *)

(** A string is trimmed when neither end is white space. *)
Definition head_solid (s : str) : Prop :=
  match s with c :: _ => isspace c = false | [] => True end.

Definition trimmed (s : str) : Prop := head_solid s /\ head_solid (reverse s).

(** ** The cleaner in stages *)

(** [re.search]: does the pattern match somewhere in the subject? *)
Fixpoint re_search (m : matcher) (s : str) : bool :=
  match s with
  | [] => false
  | _ :: r => match m s with Some (S _) => true | _ => re_search m r end
  end.

Definition not_chinese (c : char) : bool := negb (is_chinese c).

(** Step 2, the loop over [chinese_punct]. *)
Definition remove_marks (marks s : str) : str :=
  fold_left (fun l punct => replace_char punct l) marks s.

(** Steps 3 to 7: the clean-up behind the removal of characters. *)
Definition tidy (s : str) : str :=
  strip (re_sub (m_empty_pair LBRACKET RBRACKET) delete
          (re_sub (m_empty_pair LPAREN RPAREN) delete
            (re_sub m_dash_tail delete (re_sub m_slash_tail delete s)))).

(** The clean-up patterns that can still match in a cleaned line. *)
Definition residue (s : str) : bool :=
  re_search m_slash_tail s
  || re_search (m_empty_pair LPAREN RPAREN) s
  || re_search (m_empty_pair LBRACKET RBRACKET) s.

(** ** The loops of the markdown line processor *)

(** What one line contributes to [new_lines] while [skip_next] is unset. *)
Definition emitted (line : str) : list str :=
  if has_chinese line && negb (has_latin line) then []
  else if has_chinese line then
    let cleaned := remove_chinese_line line in
    if truthy cleaned && negb (str_isspace cleaned) then [cleaned ++ [NL]] else []
  else [line].

(** The loop with the [skip_next] mechanism taken out: the accumulator is
    the only state. *)
Definition classify_step_no_skip (acc : list str) (line : str) : list str :=
  if has_chinese line && negb (has_latin line) then acc
  else if has_chinese line then
    let cleaned := remove_chinese_line line in
    if truthy cleaned && negb (str_isspace cleaned) then acc ++ [cleaned ++ [NL]]
    else acc
  else acc ++ [line].

(** The first loop without the flag. *)
Definition classify_lines_no_skip (lines : list str) : list str :=
  fold_left classify_step_no_skip lines [].

(** The second loop as a recursive function of the lines still to come
    and the value of [prev_empty]. *)
Fixpoint collapse_from (prev : bool) (lines : list str) : list str :=
  match lines with
  | [] => []
  | l :: ls =>
      if is_empty_line l && prev then collapse_from prev ls
      else l :: collapse_from (is_empty_line l) ls
  end.

(** The value of [prev_empty] behind a prefix. *)
Definition ends_blank (prev : bool) (lines : list str) : bool :=
  match last lines with
  | Some l => is_empty_line l
  | None => prev
  end.

(** No two neighbours are both blank. *)
Fixpoint no_blank_pair (lines : list str) : Prop :=
  match lines with
  | a :: (b :: _) as rest =>
      ~ (is_empty_line a = true /\ is_empty_line b = true) /\ no_blank_pair rest
  | _ => True
  end.

(** A line that is not blank. *)
Definition solid_line (l : str) : bool := negb (is_empty_line l).

(** ** Deriving lines by deletion *)

(** [out] is [inp] with lines deleted and, in the lines that stay,
    characters deleted. *)
Definition by_deletion_only (out inp : list str) : Prop :=
  exists kept, kept `sublist_of` inp /\ Forall2 sublist out kept.

(** The same, where a line that stays may first be given a final newline. *)
Definition by_deletion_and_newline (out inp : list str) : Prop :=
  exists kept,
    kept `sublist_of` inp
    /\ Forall2 (fun o i => o `sublist_of` i ++ [NL] /\ (last i = Some NL -> o `sublist_of` i))
         out kept.

(** ** The front of a cleaned line *)

(** Steps 1 to 6: the cleaner without its final [strip]. *)
Definition scrub (s : str) : str :=
  re_sub (m_empty_pair LBRACKET RBRACKET) delete
    (re_sub (m_empty_pair LPAREN RPAREN) delete
      (re_sub m_dash_tail delete
        (re_sub m_slash_tail delete
          (remove_marks chinese_punct (List.filter not_chinese s))))).

(** A character none of the cleaner's steps can take from the front of a
    line. *)
Record firm (c : char) : Prop := Firm {
  firm_solid : isspace c = false;
  firm_not_chinese : is_chinese c = false;
  firm_mark : c ∉ chinese_punct;
  firm_paren : c <> LPAREN;
  firm_bracket : c <> LBRACKET
}.

(** ** The pieces of a scan

    The scan of [re_sub] cuts the subject into characters it copies and
    matches it hands to the replacement function. *)

Inductive piece :=
  | Copied (c : char)
  | Matched (t : str).

Fixpoint re_pieces_from (m : matcher) (skip : nat) (s : str) : list piece :=
  match s with
  | [] => []
  | c :: r =>
      match skip with
      | S k => re_pieces_from m k r
      | O =>
          match m s with
          | Some (S n) => Matched (take (S n) s) :: re_pieces_from m n r
          | _ => Copied c :: re_pieces_from m O r
          end
      end
  end.

(** The pieces of the scan of [s] for pattern [m]. *)
Definition re_pieces (m : matcher) (s : str) : list piece := re_pieces_from m O s.

(** The text of a piece once [repl] has been applied to the matches. *)
Definition piece_text (repl : str -> str) (p : piece) : str :=
  match p with
  | Copied c => [c]
  | Matched t => repl t
  end.

(** The subject with [repl] applied to its matches. *)
Definition rebuild (repl : str -> str) (ps : list piece) : str :=
  concat (List.map (piece_text repl) ps).

(** The characters outside the matches, in order. *)
Fixpoint outside (ps : list piece) : str :=
  match ps with
  | [] => []
  | Copied c :: rest => c :: outside rest
  | Matched _ :: rest => outside rest
  end.

(** For every character of the subject, whether it lies in a match. *)
Fixpoint covered (ps : list piece) : list bool :=
  match ps with
  | [] => []
  | Copied _ :: rest => false :: covered rest
  | Matched t :: rest => replicate (length t) true ++ covered rest
  end.

(** The replacement function that returns the match. *)
Definition unchanged : str -> str := fun t => t.

(** For every character of [s], whether a line-comment match of [s] or a
    block-comment match of [s] covers it. *)
Definition in_comment (s : str) : list bool :=
  zip_with orb (covered (re_pieces m_line_comment s)) (covered (re_pieces m_block_comment s)).

(** The characters of [s] that no comment match of [s] covers. *)
Definition outside_comments (s : str) : str :=
  List.map fst (List.filter (fun x => negb (snd x)) (zip s (in_comment s))).

(** A source file in which cleaning a line comment creates a block-comment
    opening mark. *)
Definition exposed_source : str :=
  text "// /" ++ [0x4e2d] ++ text "* x" ++ [NL]
  ++ text "const s = '" ++ [0x4e2d] ++ text " a';" ++ [NL]
  ++ text "/* end */".

(** ** Characters within the cleaner's reach *)

(** The characters some step of the cleaner can delete: CJK characters,
    the marks of [chinese_punct], white space, and the characters of the
    clean-up patterns. *)
Definition removable (c : char) : bool :=
  is_chinese c || existsb (N.eqb c) chinese_punct || isspace c
  || existsb (N.eqb c) [SLASH; DASH; LPAREN; RPAREN; LBRACKET; RBRACKET].

Definition lasting (c : char) : bool := negb (removable c).

(** A line with CJK characters and no Latin letter: the lines the first
    loop skips. *)
Definition pure_chinese (line : str) : bool :=
  has_chinese line && negb (has_latin line).

(** Number of newline characters. *)
Definition newlines (s : str) : nat := length (List.filter (N.eqb NL) s).

(** A line as [readlines()] yields it: no newline except, possibly, as
    its last character. *)
Definition one_line (l : str) : Prop :=
  exists body, (NL ∉ body) /\ (l = body \/ l = body ++ [NL]).

(** ** The marks written on line 21 *)

Definition APOSTROPHE : char := 39.

(** The characters that stand on line 21 between the first and the last
    apostrophe of [chinese_punct = '...']: the twelve full-width marks, two
    double quotes, two apostrophes and U+3001.  The two apostrophes are
    what Python takes as the end of one literal and the start of the next,
    so they are missing from [chinese_punct]. *)
Definition punct_as_written : str :=
  [0xff0c; 0x3002; 0xff1b; 0xff1a; 0xff1f; 0xff01; 0xff08; 0xff09;
   0x3010; 0x3011; 0x300a; 0x300b; DQUOTE; DQUOTE; APOSTROPHE; APOSTROPHE; 0x3001].

(** * Properties *)

(** ** The model at work

    The values below are the ones CPython's [re] and [str] give for the
    same patterns and subjects. *)

Example slash_tail_cases :
  List.map (re_sub m_slash_tail delete)
    [text "a /"; text "a /" ++ [NL]; text "a / x"; text " /"; text "/"; text "a / / "]
  = [text "a"; text "a"; text "a / x"; []; text "/"; text "a /"].
Proof. vm_compute. reflexivity. Qed.

Example dash_tail_cases :
  List.map (re_sub m_dash_tail delete)
    [text "a -"; text "a - "; text "a -" ++ [NL]; text "a - x"]
  = [text "a -"; text "a"; text "a"; text "a - x"].
Proof. vm_compute. reflexivity. Qed.

Example empty_pair_cases :
  List.map (re_sub (m_empty_pair LPAREN RPAREN) delete)
    [text "(())"; text "a()b( )c(  x)"; text "( )("]
  = [text "()"; text "abc(  x)"; text "("].
Proof. vm_compute. reflexivity. Qed.

Example line_comment_cases :
  re_sub m_line_comment (fun t => text "<" ++ t ++ text ">")
    (text "a // b" ++ [NL] ++ text "// c//d")
  = text "a <// b>" ++ [NL] ++ text "<// c//d>".
Proof. vm_compute. reflexivity. Qed.

Example block_comment_cases :
  List.map (re_sub m_block_comment (fun t => text "<" ++ t ++ text ">"))
    [text "/* a */ b /* c" ++ [NL] ++ text " d */ e */"; text "/*/"; text "/*/ x */";
     text "/***/"; text "a /* b"]
  = [text "</* a */> b </* c" ++ [NL] ++ text " d */> e */"; text "/*/"; text "</*/ x */>";
     text "</***/>"; text "a /* b"].
Proof. vm_compute. reflexivity. Qed.

Example split_join_cases :
  split_nl (text "a" ++ [NL] ++ text "b" ++ [NL]) = [text "a"; text "b"; []]
  /\ split_nl [] = [[]]
  /\ join_nl [text "a"; []; text "b"] = text "a" ++ [NL; NL] ++ text "b".
Proof. vm_compute. auto. Qed.

Example readlines_cases :
  readlines (text "ab" ++ [NL; NL] ++ text "cd") = [text "ab" ++ [NL]; [NL]; text "cd"].
Proof. vm_compute. reflexivity. Qed.

Example cleaner_hello :
  remove_chinese_line (text "Hello " ++ [0x4e16; 0x754c] ++ text " world")
  = text "Hello  world".
Proof. vm_compute. reflexivity. Qed.

Example markdown_cases :
  let zh := [0x5b8c; 0x5168; 0x4e2d; 0x6587; NL] in
  let mixed := text "Title " ++ [0x6807; 0x9898] ++ text " / " in
  process_markdown_file
    [text "Keep this line" ++ [NL]; zh; [NL]; [NL]; [NL]; mixed ++ [NL]; text "end"]
  = [text "Keep this line" ++ [NL]; [NL]; text "Title" ++ [NL]; text "end"].
Proof. vm_compute. reflexivity. Qed.

#[global] Arguments is_chinese : simpl never.
#[global] Arguments is_latin : simpl never.
#[global] Arguments isspace : simpl never.
#[global] Arguments N.eqb : simpl never.
#[global] Arguments remove_chinese_line : simpl never.
#[global] Arguments has_chinese : simpl never.
#[global] Arguments has_latin : simpl never.
#[global] Arguments strip : simpl never.
#[global] Arguments text : simpl never.

(** ** Prefixes, white space and [strip] *)

Lemma span_le p s : (span p s <= length s)%nat.
Proof. induction s as [|c r IH]; simpl; [lia|]. destruct (p c); simpl; lia. Qed.

Lemma span_take_all p s : forallb p (take (span p s) s) = true.
Proof.
  induction s as [|c r IH]; simpl; [done|].
  destruct (p c) eqn:E; simpl; [|done]. by rewrite E, IH.
Qed.

Lemma span_drop_head p s c r : drop (span p s) s = c :: r -> p c = false.
Proof.
  induction s as [|d t IH]; simpl; [done|].
  destruct (p d) eqn:E; simpl; [done|]. by intros [= <- _].
Qed.

Lemma span_all p s : forallb p s = true -> span p s = length s.
Proof.
  induction s as [|c r IH]; simpl; [done|].
  intros [-> H]%andb_prop. by rewrite IH.
Qed.

Lemma span_zero p c r : p c = false -> span p (c :: r) = O.
Proof. simpl. by intros ->. Qed.

Lemma span_app_stop p a c r :
  forallb p a = true -> p c = false -> span p (a ++ c :: r) = length a.
Proof.
  induction a as [|d a IH]; simpl; intros Ha Hc; [by rewrite Hc|].
  apply andb_prop in Ha as [-> Ha]. by rewrite IH.
Qed.

Lemma lstrip_sublist s : lstrip s `sublist_of` s.
Proof. apply sublist_drop. Qed.

Lemma sublist_reverse_2 (l k : str) : l `sublist_of` k -> reverse l `sublist_of` reverse k.
Proof.
  induction 1 as [|x l k _ IH|x l k _ IH]; [done| |].
  - rewrite !reverse_cons. by apply sublist_app.
  - rewrite reverse_cons. by apply sublist_inserts_r.
Qed.

Lemma rstrip_sublist s : rstrip s `sublist_of` s.
Proof.
  unfold rstrip. rewrite <- (reverse_involutive s) at 2.
  apply sublist_reverse_2, lstrip_sublist.
Qed.

Lemma strip_sublist s : strip s `sublist_of` s.
Proof. unfold strip. etrans; [apply lstrip_sublist|apply rstrip_sublist]. Qed.

Lemma lstrip_head_solid s : head_solid (lstrip s).
Proof.
  unfold lstrip, head_solid. destruct (drop (span isspace s) s) as [|c r] eqn:E; [done|].
  by apply span_drop_head in E.
Qed.

Lemma lstrip_id s : head_solid s -> lstrip s = s.
Proof. unfold lstrip. destruct s as [|c r]; simpl; [done|]. by intros ->. Qed.

Lemma rstrip_id s : head_solid (reverse s) -> rstrip s = s.
Proof. intros H. unfold rstrip. rewrite lstrip_id by done. apply reverse_involutive. Qed.

Lemma rstrip_tail_solid s : head_solid (reverse (rstrip s)).
Proof. unfold rstrip. rewrite reverse_involutive. apply lstrip_head_solid. Qed.

Lemma drop_tail_solid n s :
  head_solid (reverse s) -> head_solid (reverse (drop n s)).
Proof.
  revert n. induction s as [|c r IH]; intros n H; [by rewrite drop_nil|].
  destruct n as [|n]; [done|]. simpl. apply IH.
  rewrite reverse_cons in H. destruct (reverse r) as [|d t] eqn:E; [|done].
  apply (f_equal reverse) in E. rewrite reverse_involutive in E. by subst r.
Qed.

Lemma strip_trimmed s : trimmed (strip s).
Proof.
  split; [apply lstrip_head_solid|].
  unfold strip, lstrip. apply drop_tail_solid, rstrip_tail_solid.
Qed.

Lemma strip_id s : trimmed s -> strip s = s.
Proof. intros [H1 H2]. unfold strip. by rewrite rstrip_id, lstrip_id. Qed.

(** ** The scan of [re_sub] *)

Section ReSub.
Variable m : matcher.
Variable repl : str -> str.

Lemma re_sub_from_skip k s : re_sub_from m repl k s = re_sub m repl (drop k s).
Proof.
  revert k. induction s as [|c r IH]; intros k.
  - by rewrite drop_nil.
  - destruct k as [|k]; [done|]. simpl. apply IH.
Qed.

Lemma re_sub_hit c r n :
  m (c :: r) = Some (S n) ->
  re_sub m repl (c :: r) = repl (take (S n) (c :: r)) ++ re_sub m repl (drop n r).
Proof. intros H. unfold re_sub at 1. simpl. rewrite H. by rewrite re_sub_from_skip. Qed.

Lemma re_sub_miss c r :
  m (c :: r) = None -> re_sub m repl (c :: r) = c :: re_sub m repl r.
Proof. intros H. unfold re_sub at 1. simpl. by rewrite H. Qed.
End ReSub.

Lemma re_sub_no_match m repl s : re_search m s = false -> re_sub m repl s = s.
Proof.
  unfold re_sub. induction s as [|c r IH]; simpl; [done|].
  destruct (m (c :: r)) as [[|n]|]; intros H; try done; by rewrite IH.
Qed.

Lemma re_sub_from_delete_sublist m k s : re_sub_from m delete k s `sublist_of` s.
Proof.
  revert k. induction s as [|c r IH]; intros k; simpl; [done|].
  destruct k as [|k]; [|by apply sublist_cons].
  destruct (m (c :: r)) as [[|n]|]; simpl; by constructor.
Qed.

Lemma re_sub_delete_sublist m s : re_sub m delete s `sublist_of` s.
Proof. apply re_sub_from_delete_sublist. Qed.

Lemma re_sub_delete_shorter m s :
  re_search m s = true -> (length (re_sub m delete s) < length s)%nat.
Proof.
  unfold re_sub. induction s as [|c r IH]; simpl; [done|].
  destruct (m (c :: r)) as [[|n]|]; simpl; intros E.
  - specialize (IH E). lia.
  - pose proof (sublist_length _ _ (re_sub_from_delete_sublist m n r)). lia.
  - specialize (IH E). lia.
Qed.

(** ** The steps of the cleaner *)

Lemma filter_sublist_b (p : char -> bool) s : List.filter p s `sublist_of` s.
Proof. induction s as [|c r IH]; simpl; [done|]. destruct (p c); by constructor. Qed.

Lemma filter_id_b (p : char -> bool) s : forallb p s = true -> List.filter p s = s.
Proof.
  induction s as [|c r IH]; simpl; [done|].
  intros [-> H]%andb_prop. by rewrite IH.
Qed.

Lemma filter_drop_prefix (p q : char -> bool) k s :
  (forall c, q c = true -> p c = false) ->
  (k <= span q s)%nat -> List.filter p (drop k s) = List.filter p s.
Proof.
  intros Hpq. revert k. induction s as [|c r IH]; intros k Hk; [by rewrite drop_nil|].
  destruct k as [|k]; [done|]. simpl in *.
  destruct (q c) eqn:E; [|lia]. rewrite (Hpq _ E). apply IH. lia.
Qed.

Lemma m_chinese_run_hit c r :
  is_chinese c = true -> m_chinese_run (c :: r) = Some (S (span is_chinese r)).
Proof. intros E. unfold m_chinese_run. cbn [span]. by rewrite E. Qed.

Lemma m_chinese_run_miss c r :
  is_chinese c = false -> m_chinese_run (c :: r) = None.
Proof. intros E. unfold m_chinese_run. cbn [span]. by rewrite E. Qed.

(** Step 1 removes exactly the CJK characters. *)
Lemma strip_runs_filter s :
  re_sub m_chinese_run delete s = List.filter not_chinese s.
Proof.
  induction s as [s IH] using (induction_ltof1 _ (@length char)); unfold ltof in *.
  destruct s as [|c r]; [done|].
  destruct (is_chinese c) eqn:E.
  - rewrite (re_sub_hit _ _ _ _ _ (m_chinese_run_hit c r E)).
    cbn [List.filter delete app].
    replace (not_chinese c) with false by (unfold not_chinese; by rewrite E).
    rewrite IH; [|rewrite length_drop; simpl; lia].
    apply filter_drop_prefix with (q := is_chinese); [|done].
    intros d Hd. unfold not_chinese. by rewrite Hd.
  - rewrite (re_sub_miss _ _ _ _ (m_chinese_run_miss c r E)).
    cbn [List.filter].
    replace (not_chinese c) with true by (unfold not_chinese; by rewrite E).
    f_equal. apply IH. simpl. lia.
Qed.

Lemma replace_char_elem p s c : c ∈ replace_char p s <-> c ∈ s /\ c <> p.
Proof.
  unfold replace_char. rewrite !list_elem_of_In, filter_In.
  rewrite negb_true_iff, N.eqb_neq. tauto.
Qed.

Lemma remove_marks_elem marks s c :
  c ∈ remove_marks marks s <-> c ∈ s /\ c ∉ marks.
Proof.
  unfold remove_marks. revert s. induction marks as [|p ps IH]; intros s; simpl.
  - rewrite elem_of_nil. tauto.
  - rewrite IH, replace_char_elem, not_elem_of_cons. tauto.
Qed.

Lemma remove_marks_sublist marks s : remove_marks marks s `sublist_of` s.
Proof.
  unfold remove_marks. revert s. induction marks as [|p ps IH]; intros s; simpl; [done|].
  etrans; [apply IH|apply filter_sublist_b].
Qed.

Lemma remove_marks_id marks s :
  (forall c, c ∈ s -> c ∉ marks) -> remove_marks marks s = s.
Proof.
  unfold remove_marks. revert s. induction marks as [|p ps IH]; intros s H; simpl; [done|].
  assert (replace_char p s = s) as ->.
  { apply filter_id_b, forallb_forall. intros c Hc%list_elem_of_In.
    apply negb_true_iff, N.eqb_neq. intros ->. apply (H p Hc). left. }
  apply IH. intros c Hc Hin. apply (H c Hc). by right.
Qed.

Lemma remove_chinese_line_stages line :
  remove_chinese_line line
  = tidy (remove_marks chinese_punct (List.filter not_chinese line)).
Proof. unfold remove_chinese_line, tidy, remove_marks. by rewrite strip_runs_filter. Qed.

Lemma tidy_sublist s : tidy s `sublist_of` s.
Proof.
  unfold tidy. etrans; [apply strip_sublist|].
  repeat (etrans; [apply re_sub_delete_sublist|]). done.
Qed.

(** The cleaner only deletes characters. *)
Lemma remove_chinese_line_sublist line : remove_chinese_line line `sublist_of` line.
Proof.
  rewrite remove_chinese_line_stages.
  etrans; [apply tidy_sublist|]. etrans; [apply remove_marks_sublist|].
  apply filter_sublist_b.
Qed.

Lemma remove_chinese_line_elem line c :
  c ∈ remove_chinese_line line -> c ∈ line /\ is_chinese c = false /\ c ∉ chinese_punct.
Proof.
  rewrite remove_chinese_line_stages. intros H.
  apply (sublist_subseteq _ _ (tidy_sublist _)) in H.
  apply remove_marks_elem in H as [H Hp].
  apply list_elem_of_In, filter_In in H as [H Hc].
  split; [by apply list_elem_of_In|]. split; [|done].
  by apply negb_true_iff in Hc.
Qed.

Lemma has_chinese_false s : has_chinese s = false <-> forall c, c ∈ s -> is_chinese c = false.
Proof.
  unfold has_chinese. split.
  - intros H c Hc%list_elem_of_In. destruct (is_chinese c) eqn:E; [|done].
    assert (existsb is_chinese s = true) by (apply existsb_exists; eauto). congruence.
  - intros H. destruct (existsb is_chinese s) eqn:E; [|done].
    apply existsb_exists in E as (c & Hc%list_elem_of_In & E). rewrite (H c Hc) in E. done.
Qed.

(** Whatever the input line, the cleaner's output holds no character of
    the CJK Unified Ideographs block and none of the marks [chinese_punct]
    holds as Python reads it. *)
Theorem cleaner_output_free_of_target_script (line : str) :
  has_chinese (remove_chinese_line line) = false
  /\ (forall p, p ∈ chinese_punct -> p ∉ remove_chinese_line line)
  /\ (forall c, c ∈ remove_chinese_line line ->
        ~ (0x4e00 <= c <= 0x9fff) /\ c ∉ chinese_punct).
Proof.
  split; [|split].
  - apply has_chinese_false. intros c Hc. by apply remove_chinese_line_elem in Hc as (_ & ? & _).
  - intros p Hp Hin. by apply remove_chinese_line_elem in Hin as (_ & _ & ?).
  - intros c Hc. apply remove_chinese_line_elem in Hc as (_ & Hc & Hp). split; [|done].
    unfold is_chinese in Hc. apply andb_false_iff in Hc. rewrite !N.leb_gt in Hc. lia.
Qed.

(** ** Cleaning a cleaned line *)

Lemma remove_chinese_line_trimmed line : trimmed (remove_chinese_line line).
Proof. rewrite remove_chinese_line_stages. apply strip_trimmed. Qed.

Lemma solid_tail_no_space_suffix (pre t : str) :
  head_solid (reverse (pre ++ t)) -> t <> [] -> forallb isspace t = true -> False.
Proof.
  rewrite reverse_app. intros H Ht Hall.
  destruct (reverse t) as [|d u] eqn:E.
  - apply (f_equal reverse) in E. rewrite reverse_involutive in E. done.
  - simpl in H. assert (d ∈ t) as Hd%list_elem_of_In.
    { apply elem_of_reverse. rewrite E. left. }
    rewrite forallb_forall in Hall. rewrite (Hall d Hd) in H. done.
Qed.

Lemma m_dash_tail_needs_space_end s n :
  m_dash_tail s = Some n -> head_solid (reverse s) -> False.
Proof.
  unfold m_dash_tail. destruct (span isspace s) as [|a] eqn:Ea; [done|].
  destruct (drop (S a) s) as [|c r] eqn:Ed; [done|].
  destruct (c =? DASH); [|done]. simpl.
  destruct (str_isspace r) eqn:Er; [|done]. intros _ H.
  rewrite <- (take_drop (S a) s), Ed in H.
  replace (take (S a) s ++ c :: r) with ((take (S a) s ++ [c]) ++ r) in H
    by (by rewrite <- app_assoc).
  destruct r as [|d r']; [done|].
  by apply solid_tail_no_space_suffix in H.
Qed.

Lemma dash_tail_absent s : head_solid (reverse s) -> re_search m_dash_tail s = false.
Proof.
  induction s as [|c r IH]; intros H; simpl; [done|].
  destruct (m_dash_tail (c :: r)) as [[|n]|] eqn:E.
  - apply IH. by apply (drop_tail_solid 1) in H.
  - exfalso. eapply m_dash_tail_needs_space_end; eauto.
  - apply IH. by apply (drop_tail_solid 1) in H.
Qed.

Lemma tidy_fixed s : trimmed s -> residue s = false -> tidy s = s.
Proof.
  intros Ht H. unfold residue in H.
  apply orb_false_iff in H as [[H1 H2]%orb_false_iff H3].
  unfold tidy. rewrite (re_sub_no_match _ _ _ H1).
  rewrite (re_sub_no_match _ _ s) by (apply dash_tail_absent, Ht).
  rewrite (re_sub_no_match _ _ _ H2), (re_sub_no_match _ _ _ H3).
  by apply strip_id.
Qed.

Ltac drop_outer_step :=
  eapply Nat.le_lt_trans;
  [apply sublist_length; first [apply strip_sublist | apply re_sub_delete_sublist]|].

Lemma tidy_shrinks s : trimmed s -> residue s = true -> (length (tidy s) < length s)%nat.
Proof.
  intros Ht H. unfold tidy, residue in *.
  destruct (re_search m_slash_tail s) eqn:H1.
  { do 4 drop_outer_step. by apply re_sub_delete_shorter. }
  rewrite (re_sub_no_match _ _ _ H1).
  rewrite (re_sub_no_match _ _ s) by (apply dash_tail_absent, Ht).
  destruct (re_search (m_empty_pair LPAREN RPAREN) s) eqn:H2.
  { do 2 drop_outer_step. by apply re_sub_delete_shorter. }
  rewrite (re_sub_no_match _ _ _ H2). simpl in H.
  drop_outer_step. by apply re_sub_delete_shorter.
Qed.

Lemma cleaned_is_stage_fixed y :
  has_chinese y = false -> (forall p, p ∈ chinese_punct -> p ∉ y) ->
  remove_marks chinese_punct (List.filter not_chinese y) = y.
Proof.
  intros Hc Hp. rewrite filter_id_b.
  - apply remove_marks_id. intros c Hin Hm. by apply (Hp c).
  - apply forallb_forall. intros c Hin%list_elem_of_In. unfold not_chinese.
    rewrite has_chinese_false in Hc. by rewrite (Hc c Hin).
Qed.

Lemma cleaner_not_idempotent :
  remove_chinese_line (remove_chinese_line (text "(())"))
  <> remove_chinese_line (text "(())").
Proof. vm_compute. discriminate. Qed.

(** C7, amended.  Cleaning a cleaned line [y] gives [y] back exactly when
    none of the clean-up patterns still matches in [y]: [y] holds no empty
    pair of parentheses or brackets and does not end in white space and a
    slash.  Otherwise the second pass deletes more. *)
Theorem cleaner_fixed_point_iff (line : str) :
  let y := remove_chinese_line line in
  remove_chinese_line y = y <-> residue y = false.
Proof.
  intros y.
  assert (has_chinese y = false) as Hc.
  { apply has_chinese_false. intros c Hin. by apply remove_chinese_line_elem in Hin as (_ & ? & _). }
  assert (forall p, p ∈ chinese_punct -> p ∉ y) as Hp.
  { intros p Hm Hin. by apply remove_chinese_line_elem in Hin as (_ & _ & ?). }
  pose proof (remove_chinese_line_trimmed line) as Ht. fold y in Ht.
  rewrite (remove_chinese_line_stages y), (cleaned_is_stage_fixed y Hc Hp).
  split.
  - intros E. destruct (residue y) eqn:R; [|done].
    pose proof (tidy_shrinks y Ht R) as L. rewrite E in L. lia.
  - by apply tidy_fixed.
Qed.

(** ** The markdown line processor: the classification loop *)

Lemma classify_step_emitted st line :
  skip_next st = false ->
  classify_step st line = ClassifyState (new_lines st ++ emitted line) false.
Proof.
  destruct st as [acc skip]. cbn [skip_next new_lines]. intros ->.
  unfold classify_step, emitted. cbn [skip_next new_lines].
  destruct (has_chinese line && negb (has_latin line)); [by rewrite app_nil_r|].
  destruct (has_chinese line); [|done].
  destruct (truthy (remove_chinese_line line) && negb (str_isspace (remove_chinese_line line)));
    [done|by rewrite app_nil_r].
Qed.

Lemma classify_fold lines st :
  skip_next st = false ->
  fold_left classify_step lines st
  = ClassifyState (new_lines st ++ concat (List.map emitted lines)) false.
Proof.
  revert st. induction lines as [|l ls IH]; intros st H; cbn [fold_left List.map concat].
  - rewrite app_nil_r. destruct st as [acc skip]. cbn [skip_next new_lines] in *. by subst.
  - rewrite IH by (by rewrite classify_step_emitted).
    rewrite classify_step_emitted by done. cbn [new_lines]. by rewrite app_assoc.
Qed.

Lemma classify_lines_emitted lines :
  classify_lines lines = concat (List.map emitted lines).
Proof. unfold classify_lines. by rewrite classify_fold. Qed.

Lemma classify_lines_app a b :
  classify_lines (a ++ b) = classify_lines a ++ classify_lines b.
Proof. rewrite !classify_lines_emitted, List.map_app. apply concat_app. Qed.

Lemma classify_step_no_skip_emitted acc line :
  classify_step_no_skip acc line = acc ++ emitted line.
Proof.
  unfold classify_step_no_skip, emitted.
  destruct (has_chinese line && negb (has_latin line)); [by rewrite app_nil_r|].
  destruct (has_chinese line); [|done].
  destruct (truthy (remove_chinese_line line) && negb (str_isspace (remove_chinese_line line)));
    [done|by rewrite app_nil_r].
Qed.

Lemma classify_no_skip_fold lines acc :
  fold_left classify_step_no_skip lines acc = acc ++ concat (List.map emitted lines).
Proof.
  revert acc. induction lines as [|l ls IH]; intros acc; cbn [fold_left List.map concat].
  - by rewrite app_nil_r.
  - by rewrite IH, classify_step_no_skip_emitted, app_assoc.
Qed.

(** C10. The [skip_next] flag is unset before every iteration of the
    classification loop, whatever prefix of the input has been consumed,
    and the loop computes the same line sequence as the loop without the
    flag; so does the whole processor. *)
Theorem skip_next_is_dead (lines : list str) :
  (forall done_ todo, lines = done_ ++ todo ->
     skip_next (fold_left classify_step done_ (ClassifyState [] false)) = false)
  /\ classify_lines lines = classify_lines_no_skip lines
  /\ process_markdown_file lines = collapse_blank (classify_lines_no_skip lines).
Proof.
  assert (classify_lines lines = classify_lines_no_skip lines) as E.
  { unfold classify_lines_no_skip. by rewrite classify_lines_emitted, classify_no_skip_fold. }
  split; [|split; [done|]].
  - intros pre post _. by rewrite classify_fold.
  - unfold process_markdown_file. by rewrite E.
Qed.

(** ** The markdown line processor: collapsing blank lines *)

Lemma collapse_fold lines st :
  final_lines (fold_left collapse_step lines st)
  = final_lines st ++ collapse_from (prev_empty st) lines.
Proof.
  revert st. induction lines as [|l ls IH]; intros [acc prev]; cbn [fold_left collapse_from].
  - by rewrite app_nil_r.
  - rewrite IH. unfold collapse_step. cbn [prev_empty final_lines].
    destruct (is_empty_line l && prev); cbn [prev_empty final_lines]; [done|].
    by rewrite <- app_assoc.
Qed.

Lemma collapse_blank_from lines : collapse_blank lines = collapse_from false lines.
Proof. unfold collapse_blank. by rewrite collapse_fold. Qed.

Lemma collapse_from_sublist prev lines : collapse_from prev lines `sublist_of` lines.
Proof.
  revert prev. induction lines as [|l ls IH]; intros prev; cbn [collapse_from]; [done|].
  destruct (is_empty_line l && prev); by constructor.
Qed.

Lemma collapse_blank_sublist lines : collapse_blank lines `sublist_of` lines.
Proof. rewrite collapse_blank_from. apply collapse_from_sublist. Qed.

Lemma ends_blank_cons prev l ls :
  ends_blank prev (l :: ls) = ends_blank (is_empty_line l) ls.
Proof.
  unfold ends_blank. destruct ls as [|k ks]; [done|]. rewrite last_cons_cons.
  destruct (last (k :: ks)) eqn:E; [done|]. by apply last_None in E.
Qed.

Lemma collapse_from_app prev a b :
  collapse_from prev (a ++ b)
  = collapse_from prev a ++ collapse_from (ends_blank prev a) b.
Proof.
  revert prev. induction a as [|l ls IH]; intros prev; [done|].
  rewrite ends_blank_cons. cbn [app collapse_from].
  destruct (is_empty_line l) eqn:E, prev; cbn [andb]; by rewrite IH.
Qed.

Lemma collapse_from_blank_run bs rest :
  Forall (fun l => is_empty_line l = true) bs ->
  collapse_from true (bs ++ rest) = collapse_from true rest.
Proof.
  induction 1 as [|l ls E _ IH]; [done|].
  cbn [app collapse_from]. by rewrite E.
Qed.

Lemma collapse_from_solid_head prev rest :
  match rest with l :: _ => is_empty_line l = false | [] => True end ->
  collapse_from prev rest = collapse_from false rest.
Proof. destruct rest as [|l ls]; [done|]. cbn [collapse_from]. by intros ->. Qed.

Lemma collapse_from_no_blank_pair prev lines :
  no_blank_pair (collapse_from prev lines)
  /\ (prev = true ->
      match collapse_from prev lines with
      | l :: _ => is_empty_line l = false
      | [] => True
      end).
Proof.
  revert prev. induction lines as [|l ls IH]; intros prev; cbn [collapse_from]; [done|].
  destruct (is_empty_line l) eqn:E, prev; cbn [andb].
  - apply IH.
  - destruct (IH true) as [H1 H2]. split; [|done].
    specialize (H2 eq_refl). destruct (collapse_from true ls) as [|k ks]; [done|].
    split; [|done]. intros [_ ?]. congruence.
  - destruct (IH false) as [H1 _]. split; [|done].
    destruct (collapse_from false ls) as [|k ks]; [done|].
    split; [|done]. intros [? _]. congruence.
  - destruct (IH false) as [H1 _]. split; [|done].
    destruct (collapse_from false ls) as [|k ks]; [done|].
    split; [|done]. intros [? _]. congruence.
Qed.

Lemma collapse_from_keeps_solid prev lines :
  List.filter solid_line (collapse_from prev lines) = List.filter solid_line lines.
Proof.
  revert prev. induction lines as [|l ls IH]; intros prev; cbn [collapse_from]; [done|].
  unfold solid_line at 2. cbn [List.filter].
  destruct (is_empty_line l) eqn:E, prev; cbn [andb negb List.filter];
    unfold solid_line at 1; rewrite ?E; cbn [negb]; by rewrite ?IH.
Qed.

(** C6. The output of the processor never holds two blank lines in a
    row; a maximal run of blank lines among the classified and cleaned
    lines, of whatever length, leaves its first line (and only that one)
    at its position; and the lines that are not blank pass through the
    collapse untouched. *)
Theorem blank_runs_collapse_to_one (lines : list str) :
  no_blank_pair (process_markdown_file lines)
  /\ List.filter solid_line (process_markdown_file lines)
     = List.filter solid_line (classify_lines lines)
  /\ (forall pre b bs post,
        classify_lines lines = pre ++ (b :: bs) ++ post ->
        match last pre with Some l => is_empty_line l = false | None => True end ->
        Forall (fun l => is_empty_line l = true) (b :: bs) ->
        match post with l :: _ => is_empty_line l = false | [] => True end ->
        process_markdown_file lines = collapse_blank pre ++ b :: collapse_blank post).
Proof.
  unfold process_markdown_file. rewrite collapse_blank_from. split; [|split].
  - apply collapse_from_no_blank_pair.
  - apply collapse_from_keeps_solid.
  - intros pre b bs post -> Hpre Hrun Hpost.
    rewrite collapse_from_app, !collapse_blank_from. f_equal.
    assert (ends_blank false pre = false) as ->.
    { unfold ends_blank. by destruct (last pre). }
    apply Forall_cons in Hrun as [Hb Hbs].
    cbn [app collapse_from]. rewrite Hb. cbn [andb]. f_equal.
    rewrite collapse_from_blank_run by done.
    by apply collapse_from_solid_head.
Qed.

Lemma blank_runs_collapse_to_one_witness :
  let a := text "a" ++ [NL] in
  let b := text "b" ++ [NL] in
  process_markdown_file [a; [NL]; [NL]; [NL]; b] = [a; [NL]; b].
Proof.
  intros a b.
  destruct (blank_runs_collapse_to_one [a; [NL]; [NL]; [NL]; b]) as (_ & _ & H).
  apply (H [a] [NL] [[NL]; [NL]] [b]).
  - vm_compute. reflexivity.
  - vm_compute. reflexivity.
  - repeat constructor.
  - vm_compute. reflexivity.
Defined.

(** ** Lines without Latin letters *)

Lemma emitted_pure line :
  has_chinese line = true -> has_latin line = false -> emitted line = [].
Proof. unfold emitted. by intros -> ->. Qed.

Lemma has_chinese_app a b : has_chinese (a ++ b) = has_chinese a || has_chinese b.
Proof. unfold has_chinese. apply existsb_app. Qed.

Lemma emitted_no_chinese line o : o ∈ emitted line -> has_chinese o = false.
Proof.
  unfold emitted.
  destruct (has_chinese line && negb (has_latin line)); [by intros ?%elem_of_nil|].
  destruct (has_chinese line) eqn:E.
  - destruct (truthy (remove_chinese_line line) && negb (str_isspace (remove_chinese_line line)));
      [|by intros ?%elem_of_nil].
    intros ->%list_elem_of_singleton. rewrite has_chinese_app.
    replace (has_chinese (remove_chinese_line line)) with false; [done|].
    symmetry. apply has_chinese_false. intros c Hc.
    by apply remove_chinese_line_elem in Hc as (_ & ? & _).
  - by intros ->%list_elem_of_singleton.
Qed.

Lemma elem_of_classify_lines lines o :
  o ∈ classify_lines lines <-> exists l, l ∈ lines /\ o ∈ emitted l.
Proof.
  rewrite classify_lines_emitted, list_elem_of_In, in_concat. split.
  - intros (e & (l & <- & Hl)%in_map_iff & Ho). exists l. by rewrite !list_elem_of_In.
  - intros (l & Hl & Ho). exists (emitted l). rewrite in_map_iff, <- list_elem_of_In.
    split; [|done]. exists l. by rewrite <- list_elem_of_In.
Qed.

Lemma emitted_length line : (length (emitted line) <= 1)%nat.
Proof.
  unfold emitted.
  destruct (has_chinese line && negb (has_latin line)); [simpl; lia|].
  destruct (has_chinese line); [|simpl; lia].
  destruct (truthy (remove_chinese_line line) && negb (str_isspace (remove_chinese_line line)));
    simpl; lia.
Qed.

Lemma classify_lines_length lines : (length (classify_lines lines) <= length lines)%nat.
Proof.
  rewrite classify_lines_emitted.
  induction lines as [|l ls IH]; cbn [List.map concat]; [done|].
  rewrite length_app. pose proof (emitted_length l). simpl. lia.
Qed.

(** C5. A line that holds a CJK character and no Latin letter leaves no
    trace: the processor's output is the one it gives for the input
    without that line, the line is not among the output lines, and the
    output has fewer lines than the input. *)
Theorem pure_chinese_line_is_dropped (pre post : list str) (line : str) :
  has_chinese line = true ->
  has_latin line = false ->
  process_markdown_file (pre ++ line :: post) = process_markdown_file (pre ++ post)
  /\ (line ∉ process_markdown_file (pre ++ line :: post))
  /\ (length (process_markdown_file (pre ++ line :: post)) <= length pre + length post)%nat.
Proof.
  intros Hc Hl.
  assert (classify_lines (pre ++ line :: post) = classify_lines (pre ++ post)) as E.
  { rewrite !classify_lines_app. f_equal.
    change (line :: post) with ([line] ++ post). rewrite classify_lines_app.
    rewrite (classify_lines_emitted [line]). cbn [List.map concat].
    by rewrite emitted_pure. }
  unfold process_markdown_file. rewrite E. split; [done|]. split.
  - intros Hin. apply (sublist_subseteq _ _ (collapse_blank_sublist _)) in Hin.
    apply elem_of_classify_lines in Hin as (l & _ & Ho).
    apply emitted_no_chinese in Ho. congruence.
  - etrans; [apply sublist_length, collapse_blank_sublist|].
    etrans; [apply classify_lines_length|]. by rewrite length_app.
Qed.

Lemma pure_chinese_line_is_dropped_witness :
  let zh := [0x5b8c; 0x5168; 0x4e2d; 0x6587; 0x5185; 0x5bb9; NL] in
  let keep := text "Keep this line" ++ [NL] in
  let tail := text "tail" ++ [NL] in
  process_markdown_file [keep; zh; tail] = process_markdown_file [keep; tail].
Proof.
  intros zh keep tail.
  apply (pure_chinese_line_is_dropped [keep] [tail] zh).
  - vm_compute. reflexivity.
  - vm_compute. reflexivity.
Defined.

(** ** Order of the lines *)

Lemma sublist_snoc_other (l k : str) x :
  l `sublist_of` k ++ [x] -> last l <> Some x -> l `sublist_of` k.
Proof.
  intros (l1 & l2 & -> & H1 & H2)%sublist_app_r Hlast.
  apply sublist_cons_r in H2 as [H2|(l' & -> & H2)].
  - apply sublist_nil_r in H2 as ->. by rewrite app_nil_r.
  - apply sublist_nil_r in H2 as ->. by rewrite last_snoc in Hlast.
Qed.

Lemma trimmed_last_solid s c : trimmed s -> last s = Some c -> isspace c = false.
Proof.
  intros [_ H] Hl. rewrite <- head_reverse in Hl.
  destruct (reverse s) as [|d t]; [done|]. simpl in *. by injection Hl as <-.
Qed.

Lemma emitted_by_deletion line o :
  o ∈ emitted line ->
  o `sublist_of` line ++ [NL] /\ (last line = Some NL -> o `sublist_of` line).
Proof.
  unfold emitted.
  destruct (has_chinese line && negb (has_latin line)); [by intros ?%elem_of_nil|].
  destruct (has_chinese line).
  - destruct (truthy (remove_chinese_line line) && negb (str_isspace (remove_chinese_line line)));
      [|by intros ?%elem_of_nil].
    intros ->%list_elem_of_singleton.
    pose proof (remove_chinese_line_sublist line) as Hsub. split.
    + by apply sublist_app.
    + intros Hl. destruct line as [|c r _] using rev_ind; [done|].
      rewrite last_snoc in Hl. injection Hl as ->.
      apply sublist_app; [|done].
      apply sublist_snoc_other with (x := NL); [done|].
      intros Hlast. by apply trimmed_last_solid in Hlast; [|apply remove_chinese_line_trimmed].
  - intros ->%list_elem_of_singleton. split; [by apply sublist_inserts_r|done].
Qed.

Lemma Forall2_sublist_pull {A B} (R : A -> B -> Prop) (out cl : list A) (kept : list B) :
  out `sublist_of` cl -> Forall2 R cl kept ->
  exists kept', kept' `sublist_of` kept /\ Forall2 R out kept'.
Proof.
  intros Hs. revert kept. induction Hs as [|x l1 l2 _ IH|x l1 l2 _ IH]; intros kept HF.
  - apply Forall2_nil_inv_l in HF as ->. by exists [].
  - apply Forall2_cons_inv_l in HF as (y & k & Hxy & HF & ->).
    destruct (IH _ HF) as (k' & Hk & HF'). exists (y :: k'). split; by constructor.
  - apply Forall2_cons_inv_l in HF as (y & k & Hxy & HF & ->).
    destruct (IH _ HF) as (k' & Hk & HF'). exists k'. split; [by constructor|done].
Qed.

Lemma classify_lines_by_deletion lines :
  by_deletion_and_newline (classify_lines lines) lines.
Proof.
  unfold by_deletion_and_newline. rewrite classify_lines_emitted.
  induction lines as [|l ls (kept & Hk & HF)]; cbn [List.map concat].
  - by exists [].
  - pose proof (emitted_length l) as Hlen. pose proof (emitted_by_deletion l) as Hd.
    destruct (emitted l) as [|o [|o' e]]; [| |simpl in Hlen; lia].
    + exists kept. split; [by constructor|done].
    + exists (l :: kept). split; [by constructor|].
      constructor; [|done]. apply Hd. left.
Qed.

Lemma unterminated_line_gains_newline :
  let line := text "a" ++ [0x4e2d] in
  readlines line = [line]
  /\ process_markdown_file [line] = [text "a" ++ [NL]]
  /\ ~ by_deletion_only (List.filter solid_line (process_markdown_file [line])) [line].
Proof.
  intros line. split; [by vm_compute|]. split; [by vm_compute|].
  intros (kept & Hk & HF).
  replace (List.filter solid_line (process_markdown_file [line]))
    with [text "a" ++ [NL]] in HF by (by vm_compute).
  apply Forall2_cons_inv_l in HF as (i & k & Hsub & HF & ->).
  apply Forall2_nil_inv_l in HF as ->.
  assert (i = line) as ->.
  { apply sublist_cons_r in Hk as [Hk|(l' & [= -> ->] & _)]; [|done].
    by apply sublist_nil_r in Hk. }
  apply sublist_subseteq in Hsub.
  assert (NL ∈ line) as Hin by (apply Hsub; vm_compute; right; left).
  vm_compute in Hin. repeat (apply elem_of_cons in Hin as [Hin|Hin]; [done|]).
  by apply elem_of_nil in Hin.
Qed.

(** C9, amended.  The output lines are, in the input's order, lines of the
    input with characters deleted, except that a cleaned line is written
    with a final newline: measured against the input line followed by a
    newline every output line is that line with characters deleted, and
    so it is against the input line itself when that line ends in a
    newline. *)
Theorem lines_keep_their_order (lines : list str) :
  by_deletion_and_newline (process_markdown_file lines) lines.
Proof.
  destruct (classify_lines_by_deletion lines) as (kept & Hk & HF).
  destruct (Forall2_sublist_pull _ _ _ _ (collapse_blank_sublist (classify_lines lines)) HF)
    as (kept' & Hk' & HF').
  exists kept'. split; [by etrans|done].
Qed.

(** ** What the cleaner leaves at the front of a line *)

Lemma remove_chinese_line_scrub line : remove_chinese_line line = strip (scrub line).
Proof. by rewrite remove_chinese_line_stages. Qed.

Lemma isspace_cases c :
  isspace c = true ->
  (9 <= c <= 13) \/ (28 <= c <= 32) \/ c = 0x85 \/ c = 0xa0 \/ c = 0x1680
  \/ (0x2000 <= c <= 0x200a) \/ c = 0x2028 \/ c = 0x2029 \/ c = 0x202f
  \/ c = 0x205f \/ c = 0x3000.
Proof.
  unfold isspace. rewrite !orb_true_iff, !andb_true_iff, !N.leb_le, !N.eqb_eq. tauto.
Qed.

Lemma isspace_not_chinese c : isspace c = true -> is_chinese c = false.
Proof.
  intros H%isspace_cases. unfold is_chinese.
  apply andb_false_iff. rewrite !N.leb_gt. lia.
Qed.

Lemma isspace_not_mark c : isspace c = true -> c ∉ chinese_punct.
Proof.
  intros H%isspace_cases Hin. unfold chinese_punct, DQUOTE in Hin.
  repeat (apply elem_of_cons in Hin as [->|Hin]; [lia|]).
  by apply elem_of_nil in Hin.
Qed.

Lemma firm_slash : firm SLASH.
Proof.
  split; try done. unfold chinese_punct, DQUOTE, SLASH. intros Hin.
  repeat (apply elem_of_cons in Hin as [Hin|Hin]; [done|]). by apply elem_of_nil in Hin.
Qed.

Lemma firm_star : firm STAR.
Proof.
  split; try done. unfold chinese_punct, DQUOTE, STAR. intros Hin.
  repeat (apply elem_of_cons in Hin as [Hin|Hin]; [done|]). by apply elem_of_nil in Hin.
Qed.

Lemma re_sub_copy_prefix m repl p s :
  (forall i, (i < length p)%nat -> m (drop i p ++ s) = None) ->
  re_sub m repl (p ++ s) = p ++ re_sub m repl s.
Proof.
  induction p as [|c p IH]; intros H; [done|].
  cbn [app]. rewrite re_sub_miss by (apply (H O); simpl; lia).
  f_equal. apply IH. intros i Hi. apply (H (S i)). simpl. lia.
Qed.

Lemma filter_space_prefix a c t :
  forallb isspace a = true -> is_chinese c = false ->
  List.filter not_chinese (a ++ c :: t) = a ++ c :: List.filter not_chinese t.
Proof.
  intros Ha Hc. rewrite List.filter_app. cbn [List.filter].
  unfold not_chinese at 2. rewrite Hc. cbn [negb]. f_equal.
  apply filter_id_b, forallb_forall. intros x Hx.
  rewrite forallb_forall in Ha. unfold not_chinese. by rewrite isspace_not_chinese by auto.
Qed.

Lemma remove_marks_cons marks c s :
  c ∉ marks -> remove_marks marks (c :: s) = c :: remove_marks marks s.
Proof.
  unfold remove_marks. revert s. induction marks as [|p ps IH]; intros s Hc; [done|].
  apply not_elem_of_cons in Hc as [Hne Hc]. cbn [fold_left]. unfold replace_char at 2.
  cbn [List.filter]. apply N.eqb_neq in Hne. rewrite Hne. cbn [negb]. by apply IH.
Qed.

Lemma remove_marks_space_prefix a c t :
  forallb isspace a = true -> c ∉ chinese_punct ->
  remove_marks chinese_punct (a ++ c :: t) = a ++ c :: remove_marks chinese_punct t.
Proof.
  intros Ha Hc. induction a as [|x a IH]; cbn [app].
  - by apply remove_marks_cons.
  - cbn [forallb] in Ha. apply andb_prop in Ha as [Hx Ha].
    rewrite remove_marks_cons by (by apply isspace_not_mark). by rewrite IH.
Qed.

Lemma drop_space_prefix i a c (t : str) :
  (i < length (a ++ [c]))%nat ->
  exists a', drop i (a ++ [c]) ++ t = a' ++ c :: t
             /\ (forallb isspace a = true -> forallb isspace a' = true)
             /\ (a = [] -> a' = []).
Proof.
  rewrite length_app. simpl. intros Hi. exists (drop i a).
  rewrite drop_app_le by lia. rewrite <- app_assoc. split; [done|]. split.
  - intros Ha. apply forallb_forall. intros x Hx%list_elem_of_In.
    rewrite forallb_forall in Ha. apply Ha, list_elem_of_In.
    by apply (sublist_subseteq _ _ (sublist_drop a i)).
  - intros ->. by rewrite drop_nil.
Qed.

Lemma tail_pattern_misses (mark : char) a c t :
  forallb isspace a = true -> isspace c = false -> (a = [] \/ c <> mark) ->
  forall (tail_ok : str -> bool),
    match span isspace (a ++ c :: t) with
    | O => None
    | S k =>
        match drop (S k) (a ++ c :: t) with
        | d :: r => if (d =? mark) && tail_ok r then Some (length (a ++ c :: t)) else None
        | [] => None
        end
    end = None.
Proof.
  intros Ha Hc Hm tail_ok. rewrite span_app_stop by done.
  destruct a as [|x a]; [done|]. cbn [length app drop].
  rewrite drop_app_length.
  destruct Hm as [?|Hm]; [done|]. apply N.eqb_neq in Hm. by rewrite Hm.
Qed.

Lemma m_slash_tail_miss a c t :
  forallb isspace a = true -> isspace c = false -> (a = [] \/ c <> SLASH) ->
  m_slash_tail (a ++ c :: t) = None.
Proof. intros Ha Hc Hm. apply (tail_pattern_misses SLASH a c t Ha Hc Hm (forallb isspace)). Qed.

Lemma m_dash_tail_miss a c t :
  forallb isspace a = true -> isspace c = false -> (a = [] \/ c <> DASH) ->
  m_dash_tail (a ++ c :: t) = None.
Proof. intros Ha Hc Hm. apply (tail_pattern_misses DASH a c t Ha Hc Hm str_isspace). Qed.

Lemma m_empty_pair_miss op cl c t : c <> op -> m_empty_pair op cl (c :: t) = None.
Proof. intros H%N.eqb_neq. unfold m_empty_pair. by rewrite H. Qed.

Section FirmFront.
Variables (a : str) (c : char).
Hypothesis a_space : forallb isspace a = true.
Hypothesis c_firm : firm c.
Hypothesis c_free : a = [] \/ (c <> SLASH /\ c <> DASH).

Lemma front_copied m t :
  (forall a' u, forallb isspace a' = true -> (a = [] -> a' = []) -> m (a' ++ c :: u) = None) ->
  re_sub m delete (a ++ c :: t) = a ++ c :: re_sub m delete t.
Proof.
  intros Hm. replace (a ++ c :: t) with ((a ++ [c]) ++ t) by (by rewrite <- app_assoc).
  rewrite re_sub_copy_prefix; [by rewrite <- app_assoc|].
  intros i Hi. destruct (drop_space_prefix i a c t Hi) as (a' & -> & Ha' & Hnil).
  apply Hm; auto.
Qed.

Lemma empty_pair_front op cl a' u :
  isspace op = false -> c <> op -> forallb isspace a' = true ->
  m_empty_pair op cl (a' ++ c :: u) = None.
Proof.
  intros Hop Hc Ha'. destruct a' as [|x a']; cbn [app]; apply m_empty_pair_miss; [done|].
  cbn [forallb] in Ha'. apply andb_prop in Ha' as [Hx _]. congruence.
Qed.

Lemma scrub_front t : scrub (a ++ c :: t) = a ++ c :: scrub t.
Proof.
  destruct c_firm as [Hs Hl Hm Hp Hb]. unfold scrub.
  rewrite filter_space_prefix, remove_marks_space_prefix by done.
  rewrite (front_copied m_slash_tail).
  2:{ intros a' u Ha' Hnil. apply m_slash_tail_miss; [done..|].
      destruct c_free as [?|[? _]]; auto. }
  rewrite (front_copied m_dash_tail).
  2:{ intros a' u Ha' Hnil. apply m_dash_tail_miss; [done..|].
      destruct c_free as [?|[_ ?]]; auto. }
  rewrite (front_copied (m_empty_pair LPAREN RPAREN)).
  2:{ intros a' u Ha' _. by apply empty_pair_front. }
  rewrite (front_copied (m_empty_pair LBRACKET RBRACKET)).
  2:{ intros a' u Ha' _. by apply empty_pair_front. }
  done.
Qed.

Lemma lstrip_front u : lstrip (a ++ c :: u) = c :: u.
Proof.
  unfold lstrip. rewrite span_app_stop by (done || apply c_firm).
  apply drop_app_length.
Qed.

Lemma rstrip_front u : rstrip (a ++ c :: u) = a ++ c :: rstrip u.
Proof.
  unfold rstrip. rewrite reverse_app, reverse_cons, <- app_assoc.
  assert (forall x y : str, head_solid y -> y <> [] -> lstrip (x ++ y) = lstrip x ++ y) as L.
  { intros x y Hy Hne. unfold lstrip. induction x as [|d x IH]; cbn [app span].
    - destruct y as [|e y]; [done|]. simpl in Hy. cbn [span]. by rewrite Hy.
    - destruct (isspace d); [|done]. cbn [drop]. apply IH. }
  rewrite L; [|by (simpl; apply c_firm)|done].
  rewrite reverse_app, reverse_app, !reverse_involutive, reverse_singleton.
  by rewrite <- app_assoc.
Qed.

(** The cleaner keeps a firm character that only white space precedes,
    and makes it the first character of its output. *)
Lemma remove_chinese_line_front t :
  remove_chinese_line (a ++ c :: t) = c :: rstrip (scrub t).
Proof.
  rewrite remove_chinese_line_scrub, scrub_front. unfold strip.
  by rewrite rstrip_front, lstrip_front.
Qed.
End FirmFront.

Lemma remove_chinese_line_firm_head c t :
  firm c -> remove_chinese_line (c :: t) = c :: rstrip (scrub t).
Proof. intros H. apply (remove_chinese_line_front [] c eq_refl H (or_introl eq_refl)). Qed.

Lemma scrub_firm_head c t : firm c -> scrub (c :: t) = c :: scrub t.
Proof. intros H. apply (scrub_front [] c eq_refl H (or_introl eq_refl)). Qed.

Lemma rstrip_firm_head c t : firm c -> rstrip (c :: t) = c :: rstrip t.
Proof. intros H. apply (rstrip_front [] c H). Qed.

(** ** Line comments *)

Lemma lstrip_length s : (length (lstrip s) <= length s)%nat.
Proof. apply sublist_length, lstrip_sublist. Qed.

Lemma replace_comment_doubles rest :
  has_chinese rest = true ->
  replace_comment (text "//" ++ rest) = text "////" ++ rstrip (scrub rest).
Proof.
  intros H. unfold replace_comment.
  change (text "//") with [SLASH; SLASH]. change (text "////") with [SLASH; SLASH; SLASH; SLASH].
  rewrite has_chinese_app, H, orb_true_r. cbn [app].
  rewrite remove_chinese_line_firm_head, scrub_firm_head by apply firm_slash.
  cbn [app truthy]. by rewrite rstrip_firm_head by apply firm_slash.
Qed.

Lemma line_comment_example :
  process_code_file (text "x = 1; // " ++ [0x8bf4; 0x660e] ++ text " foo")
  = text "x = 1; ////  foo".
Proof. by vm_compute. Qed.

(** C1.  What the code does with a line comment that holds a CJK
    character: the cleaner is applied to the whole match, marker included,
    and the marker is then put in front once more.  The replacement starts
    with four slashes and is never the marker followed by the cleaned
    remainder. *)
Theorem line_comment_marker_is_doubled (rest : str) :
  has_chinese rest = true ->
  replace_comment (text "//" ++ rest) = text "//" ++ remove_chinese_line (text "//" ++ rest)
  /\ startswith (text "////") (replace_comment (text "//" ++ rest)) = true
  /\ replace_comment (text "//" ++ rest) <> text "//" ++ remove_chinese_line rest.
Proof.
  intros H. split; [|split].
  - unfold replace_comment. rewrite has_chinese_app, H, orb_true_r.
    change (text "//") with [SLASH; SLASH]. cbn [app].
    by rewrite remove_chinese_line_firm_head by apply firm_slash.
  - by rewrite replace_comment_doubles.
  - rewrite replace_comment_doubles by done. intros E%(f_equal length).
    rewrite !length_app, remove_chinese_line_scrub in E. unfold strip in E.
    pose proof (lstrip_length (rstrip (scrub rest))).
    change (length (text "////")) with 4%nat in E. change (length (text "//")) with 2%nat in E.
    lia.
Qed.

Lemma line_comment_marker_is_doubled_witness :
  replace_comment (text "// " ++ [0x8bf4; 0x660e] ++ text " foo")
  <> text "//" ++ remove_chinese_line (text " " ++ [0x8bf4; 0x660e] ++ text " foo").
Proof.
  apply (line_comment_marker_is_doubled (text " " ++ [0x8bf4; 0x660e] ++ text " foo")).
  vm_compute. reflexivity.
Defined.

(** ** Continuation lines of block comments *)

Lemma rstrip_is_prefix s : exists w, s = rstrip s ++ w.
Proof.
  unfold rstrip, lstrip. exists (reverse (take (span isspace (reverse s)) (reverse s))).
  rewrite <- reverse_app, take_drop. by rewrite reverse_involutive.
Qed.

Lemma startswith_cons c s : startswith [c] s = true -> exists u, s = c :: u.
Proof.
  destruct s as [|d u]; [done|]. cbn [startswith].
  rewrite andb_true_r. intros ->%N.eqb_eq. by exists u.
Qed.

Lemma strip_head_shape line c u :
  strip line = c :: u ->
  exists a t, line = a ++ c :: t /\ forallb isspace a = true.
Proof.
  unfold strip. intros E. destruct (rstrip_is_prefix line) as (w & Hw).
  set (R := rstrip line) in *. unfold lstrip in E.
  exists (take (span isspace R) R), (u ++ w). split; [|apply span_take_all].
  rewrite Hw at 1. rewrite <- (take_drop (span isspace R) R) at 1.
  by rewrite E, <- app_assoc.
Qed.

Lemma star_line_rewritten :
  let line := text " * " ++ [0x8bf4; 0x660e] ++ text " foo" in
  has_chinese line = true
  /\ contains (text "/*") line = false /\ contains (text "*/") line = false
  /\ startswith (text "*") (strip line) = true
  /\ block_line line = [text " *  foo"]
  /\ ~ (exists r, block_line line = [r]
                  /\ r = SPACE :: remove_chinese_line line
                  /\ startswith (text "*") (strip r) = false).
Proof.
  intros line. repeat (split; [by vm_compute|]).
  intros (r & E & _ & H). vm_compute in E. injection E as <-. by vm_compute in H.
Qed.

(** C8, amended.  A line inside a block comment that holds a CJK character,
    holds neither marker and begins, once trimmed, with [*] is rewritten to
    one space followed by the cleaner's output, and that output still
    begins with the [*]: the continuation marker is kept. *)
Theorem star_continuation_is_kept (line : str) :
  has_chinese line = true ->
  contains (text "/*") line = false ->
  contains (text "*/") line = false ->
  startswith (text "*") (strip line) = true ->
  block_line line = [SPACE :: remove_chinese_line line]
  /\ startswith (text "*") (remove_chinese_line line) = true.
Proof.
  intros Hc Ho Hcl Hs. change (text "*") with [STAR] in *.
  apply startswith_cons in Hs as (u & Hs).
  apply strip_head_shape in Hs as (a & t & -> & Ha).
  assert (remove_chinese_line (a ++ STAR :: t) = STAR :: rstrip (scrub t)) as E.
  { apply remove_chinese_line_front; [done|apply firm_star|]. right. by split. }
  unfold block_line. rewrite Ho, Hcl, Hc. cbn [orb].
  assert (strip (a ++ STAR :: t) = STAR :: rstrip t) as ->.
  { unfold strip. rewrite (rstrip_front a STAR firm_star). by apply lstrip_front, firm_star. }
  rewrite E. cbn [truthy startswith]. by rewrite N.eqb_refl.
Qed.

Lemma star_continuation_is_kept_witness :
  block_line (text " * " ++ [0x8bf4; 0x660e] ++ text " foo")
  = [SPACE :: remove_chinese_line (text " * " ++ [0x8bf4; 0x660e] ++ text " foo")].
Proof.
  apply (star_continuation_is_kept (text " * " ++ [0x8bf4; 0x660e] ++ text " foo"));
    vm_compute; reflexivity.
Defined.

(** ** The pieces of a scan *)

Lemma re_sub_from_rebuild m repl k s :
  re_sub_from m repl k s = rebuild repl (re_pieces_from m k s).
Proof.
  unfold rebuild. revert k. induction s as [|c r IH]; intros k; [done|].
  cbn [re_sub_from re_pieces_from]. destruct k as [|k]; [|apply IH].
  destruct (m (c :: r)) as [[|n]|]; cbn [List.map concat piece_text]; by rewrite IH.
Qed.

Lemma re_sub_rebuild m repl s : re_sub m repl s = rebuild repl (re_pieces m s).
Proof. apply re_sub_from_rebuild. Qed.

Lemma rebuild_unchanged_from m k s :
  rebuild unchanged (re_pieces_from m k s) = drop k s.
Proof.
  rewrite <- re_sub_from_rebuild. revert k.
  induction s as [|c r IH]; intros k; [by rewrite drop_nil|].
  cbn [re_sub_from]. destruct k as [|k]; [|apply IH].
  destruct (m (c :: r)) as [[|n]|]; rewrite IH; cbn [drop]; try done.
  unfold unchanged. cbn [take app]. by rewrite take_drop.
Qed.

Lemma rebuild_unchanged m s : rebuild unchanged (re_pieces m s) = s.
Proof. apply rebuild_unchanged_from. Qed.

Lemma outside_sublist repl ps : outside ps `sublist_of` rebuild repl ps.
Proof.
  unfold rebuild. induction ps as [|[c|t] ps IH]; cbn [outside List.map concat piece_text].
  - done.
  - by constructor.
  - by apply sublist_inserts_l.
Qed.

Lemma rebuild_ext repl1 repl2 ps :
  (forall t, Matched t ∈ ps -> repl1 t = repl2 t) -> rebuild repl1 ps = rebuild repl2 ps.
Proof.
  unfold rebuild. induction ps as [|p ps IH]; intros H; [done|].
  cbn [List.map concat]. rewrite IH by (intros t Ht; apply H; by right). f_equal.
  destruct p as [c|t]; [done|]. apply H. left.
Qed.

(** Every match is a segment of the subject at which the pattern matches. *)
Lemma matched_piece_segment m k s t :
  Matched t ∈ re_pieces_from m k s ->
  exists pre n, m (drop pre s) = Some (S n) /\ t = take (S n) (drop pre s).
Proof.
  revert k. induction s as [|c r IH]; intros k; [by intros ?%elem_of_nil|].
  cbn [re_pieces_from].
  assert (forall j, Matched t ∈ re_pieces_from m j r ->
            exists pre n, m (drop pre (c :: r)) = Some (S n) /\ t = take (S n) (drop pre (c :: r))) as Hr.
  { intros j (pre & n & ? & ?)%IH. by exists (S pre), n. }
  destruct k as [|k]; [|apply Hr].
  destruct (m (c :: r)) as [[|n]|] eqn:E.
  - intros [?|?]%elem_of_cons; [done|]. by eapply Hr.
  - intros [[= ->]|?]%elem_of_cons; [|by eapply Hr]. by exists O, n.
  - intros [?|?]%elem_of_cons; [done|]. by eapply Hr.
Qed.

Lemma segment_elem (s : str) pre n x : x ∈ take n (drop pre s) -> x ∈ s.
Proof.
  intros H. apply (sublist_subseteq _ _ (sublist_take _ _)) in H.
  by apply (sublist_subseteq _ _ (sublist_drop _ _)) in H.
Qed.

(** The characters a mask leaves uncovered. *)
Lemma uncovered_matched (t : str) (rest : str) (cov : list bool) :
  List.map fst (List.filter (fun x => negb (snd x))
                  (zip (t ++ rest) (replicate (length t) true ++ cov)))
  = List.map fst (List.filter (fun x : char * bool => negb (snd x)) (zip rest cov)).
Proof. induction t as [|c t IH]; [done|]. cbn [length replicate app zip_with List.filter]. apply IH. Qed.

Lemma outside_by_cover ps :
  outside ps
  = List.map fst (List.filter (fun x => negb (snd x)) (zip (rebuild unchanged ps) (covered ps))).
Proof.
  unfold rebuild. induction ps as [|[c|t] ps IH]; cbn [outside covered List.map concat piece_text].
  - done.
  - cbn [app zip_with List.filter snd negb List.map fst]. by rewrite IH.
  - unfold unchanged at 1. by rewrite uncovered_matched.
Qed.

Lemma uncovered_by_more (s : str) (A B : list bool) :
  List.map fst (List.filter (fun x => negb (snd x)) (zip s (zip_with orb A B)))
  `sublist_of` List.map fst (List.filter (fun x => negb (snd x)) (zip s B)).
Proof.
  revert A B. induction s as [|c s IH]; intros A B; [done|].
  destruct A as [|a A]; [apply sublist_nil_l|].
  destruct B as [|b B]; [done|].
  cbn [zip_with List.filter snd]. specialize (IH A B).
  destruct a, b; cbn [orb negb List.map fst]; first [exact IH|by constructor].
Qed.

Lemma outside_comments_sublist_block s :
  outside_comments s `sublist_of` outside (re_pieces m_block_comment s).
Proof.
  rewrite outside_by_cover, rebuild_unchanged. apply uncovered_by_more.
Qed.

Lemma line_comment_pass_idle content :
  (forall t, Matched t ∈ re_pieces m_line_comment content -> has_chinese t = false) ->
  line_comment_pass content = content.
Proof.
  intros H. unfold line_comment_pass.
  trans (rebuild unchanged (re_pieces m_line_comment content)); [|apply rebuild_unchanged].
  rewrite re_sub_rebuild. apply rebuild_ext. intros t Ht.
  unfold replace_comment, unchanged. by rewrite (H t Ht).
Qed.

(** C4, amended.  Each pass rewrites matches only.  The line-comment pass
    cuts the input into copied characters and line-comment matches and
    replaces the matches; the block-comment pass does the same with the
    text the first pass produced.  The characters outside the matches of a
    pass reach its output unchanged and in order.  When no line comment of
    the input holds a CJK character, so do the characters of the input
    outside all its comment matches. *)
Theorem passes_rewrite_matches_only (content : str) :
  let mid := line_comment_pass content in
  let lc := re_pieces m_line_comment content in
  let bc := re_pieces m_block_comment mid in
  rebuild unchanged lc = content
  /\ rebuild replace_comment lc = mid
  /\ outside lc `sublist_of` mid
  /\ rebuild unchanged bc = mid
  /\ rebuild replace_multiline_comment bc = process_code_file content
  /\ outside bc `sublist_of` process_code_file content
  /\ ((forall t, Matched t ∈ lc -> has_chinese t = false) ->
      outside_comments content `sublist_of` process_code_file content).
Proof.
  intros mid lc bc.
  assert (rebuild replace_comment lc = mid) as E1 by (symmetry; apply re_sub_rebuild).
  assert (rebuild replace_multiline_comment bc = process_code_file content) as E2
    by (symmetry; apply re_sub_rebuild).
  assert (outside bc `sublist_of` process_code_file content) as Hbc
    by (rewrite <- E2; apply outside_sublist).
  repeat split; try done; try apply rebuild_unchanged.
  - rewrite <- E1. apply outside_sublist.
  - intros Hidle. etrans; [|apply Hbc].
    unfold bc, mid. rewrite (line_comment_pass_idle _ Hidle).
    apply outside_comments_sublist_block.
Qed.

Lemma passes_rewrite_matches_only_witness :
  let content :=
    text "a = 1; // one" ++ [NL] ++ text "/* " ++ [0x4e2d] ++ [NL] ++ text " * "
    ++ [0x6587] ++ text " x" ++ [NL] ++ text " */ b = 2;" in
  outside_comments content `sublist_of` process_code_file content.
Proof.
  intros content.
  destruct (passes_rewrite_matches_only content) as (_ & _ & _ & _ & _ & _ & H).
  apply H. intros t Ht. vm_compute in Ht.
  repeat (apply elem_of_cons in Ht as [Ht|Ht];
    [first [discriminate Ht|injection Ht as ->; vm_compute; reflexivity]|]).
  by apply elem_of_nil in Ht.
Defined.

Lemma created_marker_exposes_code :
  outside_comments exposed_source
  = [NL] ++ text "const s = '" ++ [0x4e2d] ++ text " a';" ++ [NL]
  /\ line_comment_pass exposed_source
     = text "//// /* x" ++ [NL]
       ++ text "const s = '" ++ [0x4e2d] ++ text " a';" ++ [NL]
       ++ text "/* end */"
  /\ process_code_file exposed_source
     = text "//// /* x" ++ [NL] ++ text "const s = ' a';" ++ [NL] ++ text "/* end */"
  /\ ~ outside_comments exposed_source `sublist_of` process_code_file exposed_source.
Proof.
  split; [by vm_compute|]. split; [by vm_compute|]. split; [by vm_compute|].
  intros H%sublist_subseteq.
  assert (0x4e2d ∈ process_code_file exposed_source) as Hin.
  { apply H. vm_compute. do 12 right. left. }
  vm_compute in Hin. repeat (apply elem_of_cons in Hin as [Hin|Hin]; [done|]).
  by apply elem_of_nil in Hin.
Qed.

(** ** Block comments on one line *)

Lemma split_nl_one_line t : NL ∉ t -> split_nl t = [t].
Proof.
  induction t as [|c t IH]; [done|]. intros [Hc Ht]%not_elem_of_cons.
  cbn [split_nl]. apply not_eq_sym, N.eqb_neq in Hc. rewrite Hc. by rewrite IH.
Qed.

Lemma contains_prefix p s : startswith p s = true -> contains p s = true.
Proof. intros H. destruct s; cbn [contains]; by rewrite H. Qed.

Lemma replace_multiline_comment_one_line t :
  NL ∉ t -> startswith (text "/*") t = true -> replace_multiline_comment t = t.
Proof.
  intros Hnl Hop. unfold replace_multiline_comment.
  destruct (has_chinese t); [|done].
  rewrite split_nl_one_line by done. cbn [fold_left app].
  unfold block_line. by rewrite (contains_prefix _ _ Hop).
Qed.

Lemma m_block_comment_opens s n :
  m_block_comment s = Some (S n) -> startswith (text "/*") (take (S n) s) = true.
Proof.
  unfold m_block_comment. destruct s as [|a [|b r]]; [done..|].
  destruct ((a =? SLASH) && (b =? STAR)) eqn:E; [|done].
  apply andb_prop in E as [->%N.eqb_eq ->%N.eqb_eq].
  destruct (find_close r) as [k|]; [|done]. cbn [option_map].
  intros [= <-]. replace (k + 4)%nat with (S (S (S (S k)))) by lia. done.
Qed.

Lemma block_comment_pass_one_line content :
  NL ∉ content -> block_comment_pass content = content.
Proof.
  intros Hnl. unfold block_comment_pass.
  trans (rebuild unchanged (re_pieces m_block_comment content));
    [|apply rebuild_unchanged].
  rewrite re_sub_rebuild. apply rebuild_ext. intros t (pre & n & Hm & ->)%matched_piece_segment.
  unfold unchanged. apply replace_multiline_comment_one_line.
  - intros Hin. by apply segment_elem in Hin.
  - by apply m_block_comment_opens.
Qed.

Lemma one_line_block_comment_keeps_chinese :
  let comment := text "/* " ++ [0x8bf4; 0x660e] ++ text " The spec */" in
  process_code_file comment = comment
  /\ has_chinese (process_code_file comment) = true.
Proof. by vm_compute. Qed.

(** * Further properties of the script *)

(** ** What the cleaner deletes and what it keeps *)

Lemma trimmed_not_isspace s : trimmed s -> str_isspace s = false.
Proof. intros [H _]. destruct s as [|c r]; [done|]. simpl in *. by rewrite H. Qed.

(** The cleaner only deletes: its output is the input with characters
    taken out, it has no white space at either end, and it is never a
    string of white space. *)
Theorem cleaner_only_deletes (line : str) :
  remove_chinese_line line `sublist_of` line
  /\ (length (remove_chinese_line line) <= length line)%nat
  /\ trimmed (remove_chinese_line line)
  /\ str_isspace (remove_chinese_line line) = false.
Proof.
  pose proof (remove_chinese_line_sublist line) as H. split; [done|].
  split; [by apply sublist_length|].
  split; [apply remove_chinese_line_trimmed|].
  apply trimmed_not_isspace, remove_chinese_line_trimmed.
Qed.

(** The lines the cleaner returns as they are: those without CJK
    character and mark, without white space at the ends, and in which no
    clean-up pattern matches. *)
Theorem cleaner_fixed_points (line : str) :
  remove_chinese_line line = line
  <-> has_chinese line = false
      /\ (forall p, p ∈ chinese_punct -> p ∉ line)
      /\ trimmed line
      /\ residue line = false.
Proof.
  split.
  - intros E.
    assert (has_chinese line = false) as Hc.
    { apply has_chinese_false. intros c Hin. rewrite <- E in Hin.
      by apply remove_chinese_line_elem in Hin as (_ & ? & _). }
    assert (forall p, p ∈ chinese_punct -> p ∉ line) as Hp.
    { intros p Hm Hin. rewrite <- E in Hin.
      by apply remove_chinese_line_elem in Hin as (_ & _ & ?). }
    assert (trimmed line) as Ht by (rewrite <- E; apply remove_chinese_line_trimmed).
    repeat split; try done; try apply Ht.
    destruct (residue line) eqn:R; [|done].
    rewrite remove_chinese_line_stages, (cleaned_is_stage_fixed line Hc Hp) in E.
    pose proof (tidy_shrinks line Ht R) as L. rewrite E in L. lia.
  - intros (Hc & Hp & Ht & R).
    rewrite remove_chinese_line_stages, (cleaned_is_stage_fixed line Hc Hp).
    by apply tidy_fixed.
Qed.

Lemma filter_filter_weaker (q p : char -> bool) s :
  (forall c, q c = true -> p c = true) ->
  List.filter q (List.filter p s) = List.filter q s.
Proof.
  intros H. induction s as [|c r IH]; [done|]. cbn [List.filter].
  destruct (p c) eqn:Ep; cbn [List.filter]; rewrite IH; [done|].
  destruct (q c) eqn:Eq; [|done]. rewrite (H c Eq) in Ep. done.
Qed.

Lemma filter_nothing (q : char -> bool) s :
  (forall c, c ∈ s -> q c = false) -> List.filter q s = [].
Proof.
  induction s as [|c r IH]; intros H; [done|]. cbn [List.filter].
  rewrite (H c) by left. apply IH. intros d Hd. apply H. by right.
Qed.

Lemma remove_marks_filter (q : char -> bool) marks s :
  (forall c, q c = true -> c ∉ marks) ->
  List.filter q (remove_marks marks s) = List.filter q s.
Proof.
  unfold remove_marks. revert s. induction marks as [|p ps IH]; intros s H; [done|].
  cbn [fold_left]. rewrite IH by (intros c Hc Hin; apply (H c Hc); by right).
  apply filter_filter_weaker. intros c Hc. apply negb_true_iff, N.eqb_neq.
  intros ->. apply (H p Hc). left.
Qed.

Lemma re_sub_delete_filter (q : char -> bool) m s :
  (forall t n, m t = Some (S n) -> List.filter q (take (S n) t) = []) ->
  List.filter q (re_sub m delete s) = List.filter q s.
Proof.
  intros Hm. induction s as [s IH] using (induction_ltof1 _ (@length char)); unfold ltof in *.
  destruct s as [|c r]; [done|].
  destruct (m (c :: r)) as [[|n]|] eqn:E.
  - assert (re_sub m delete (c :: r) = c :: re_sub m delete r) as ->
      by (unfold re_sub; cbn [re_sub_from]; by rewrite E).
    cbn [List.filter]. rewrite (IH r) by (simpl; lia). done.
  - rewrite (re_sub_hit _ _ _ _ _ E). cbn [delete app].
    rewrite IH by (rewrite length_drop; simpl; lia).
    trans (List.filter q (take (S n) (c :: r) ++ drop (S n) (c :: r)));
      [|by rewrite take_drop].
    rewrite List.filter_app, (Hm _ _ E). done.
  - rewrite (re_sub_miss _ _ _ _ E). cbn [List.filter].
    rewrite (IH r) by (simpl; lia). done.
Qed.

Lemma forallb_elem (p : char -> bool) s c : forallb p s = true -> c ∈ s -> p c = true.
Proof. rewrite forallb_forall. intros H Hc%list_elem_of_In. by apply H. Qed.

Lemma str_isspace_all r : str_isspace r = true -> forallb isspace r = true.
Proof. by destruct r. Qed.

(** A match of one of the two tail patterns is white space around its
    mark. *)
Lemma tail_pattern_shape (mark : char) (tail_ok : str -> bool) t n :
  (forall r, tail_ok r = true -> forallb isspace r = true) ->
  match span isspace t with
  | O => None
  | S k =>
      match drop (S k) t with
      | d :: r => if (d =? mark) && tail_ok r then Some (length t) else None
      | [] => None
      end
  end = Some n ->
  forall c, c ∈ t -> isspace c = true \/ c = mark.
Proof.
  intros Hok. destruct (span isspace t) as [|k] eqn:Ek; [done|].
  destruct (drop (S k) t) as [|d r] eqn:Ed; [done|].
  destruct (d =? mark) eqn:Em; [|done]. destruct (tail_ok r) eqn:Er; [|done].
  intros _ c Hc. apply N.eqb_eq in Em as ->.
  rewrite <- (take_drop (S k) t), Ed in Hc.
  apply elem_of_app in Hc as [Hc|Hc].
  - left. rewrite <- Ek in Hc. by eapply forallb_elem; [apply span_take_all|].
  - apply elem_of_cons in Hc as [->|Hc]; [by right|].
    left. by eapply forallb_elem; [apply Hok|].
Qed.

Lemma m_slash_tail_shape t n c :
  m_slash_tail t = Some n -> c ∈ t -> isspace c = true \/ c = SLASH.
Proof. intros H. by apply (tail_pattern_shape SLASH (forallb isspace) t n). Qed.

Lemma m_dash_tail_shape t n c :
  m_dash_tail t = Some n -> c ∈ t -> isspace c = true \/ c = DASH.
Proof. intros H. apply (tail_pattern_shape DASH str_isspace t n); [|done]. apply str_isspace_all. Qed.

Lemma m_empty_pair_shape op cl t n c :
  m_empty_pair op cl t = Some (S n) -> c ∈ take (S n) t ->
  isspace c = true \/ c = op \/ c = cl.
Proof.
  unfold m_empty_pair. destruct t as [|x r]; [done|].
  destruct (x =? op) eqn:Ex; [|done]. apply N.eqb_eq in Ex as ->.
  destruct (drop (span isspace r) r) as [|d R] eqn:Ed; [done|].
  destruct (d =? cl) eqn:Ec; [|done]. apply N.eqb_eq in Ec as ->.
  intros [= E]. assert (n = (span isspace r + 1)%nat) as -> by lia. cbn [take].
  intros [->|Hc]%elem_of_cons; [by right; left|].
  pose proof (span_take_all isspace r) as Hws. pose proof (span_le isspace r) as Hle.
  set (k := span isspace r) in *.
  assert (take (k + 1) r = take k r ++ [cl]) as E'.
  { rewrite <- (take_drop k r) at 1. rewrite Ed.
    rewrite take_app_add' by (by rewrite length_take_le). done. }
  rewrite E' in Hc. apply elem_of_app in Hc as [Hc|Hc].
  - left. by eapply forallb_elem.
  - apply elem_of_cons in Hc as [->|Hc]; [by right; right|]. by apply elem_of_nil in Hc.
Qed.

Lemma lstrip_filter (q : char -> bool) s :
  (forall c, isspace c = true -> q c = false) ->
  List.filter q (lstrip s) = List.filter q s.
Proof. intros H. unfold lstrip. by apply filter_drop_prefix with (q := isspace). Qed.

Lemma filter_reverse (q : char -> bool) s :
  List.filter q (reverse s) = reverse (List.filter q s).
Proof.
  induction s as [|c r IH]; [done|].
  rewrite reverse_cons, List.filter_app, IH. cbn [List.filter].
  destruct (q c); [by rewrite reverse_cons|by rewrite app_nil_r].
Qed.

Lemma rstrip_filter (q : char -> bool) s :
  (forall c, isspace c = true -> q c = false) ->
  List.filter q (rstrip s) = List.filter q s.
Proof.
  intros H. unfold rstrip.
  by rewrite filter_reverse, lstrip_filter, filter_reverse, reverse_involutive.
Qed.

Lemma strip_filter (q : char -> bool) s :
  (forall c, isspace c = true -> q c = false) ->
  List.filter q (strip s) = List.filter q s.
Proof. intros H. unfold strip. by rewrite lstrip_filter, rstrip_filter. Qed.

Lemma lasting_inv c :
  lasting c = true ->
  is_chinese c = false /\ (c ∉ chinese_punct) /\ isspace c = false
  /\ c <> SLASH /\ c <> DASH /\ c <> LPAREN /\ c <> RPAREN /\ c <> LBRACKET /\ c <> RBRACKET.
Proof.
  unfold lasting, removable. rewrite negb_true_iff, !orb_false_iff.
  intros [[[Hc Hp] Hs] Hm]. split; [done|]. split.
  - intros Hin%list_elem_of_In.
    assert (existsb (N.eqb c) chinese_punct = true); [|congruence].
    apply existsb_exists. exists c. by rewrite N.eqb_refl.
  - split; [done|]. cbn [existsb] in Hm. rewrite !orb_false_iff, !N.eqb_neq in Hm. tauto.
Qed.

Lemma scrub_keeps_lasting s :
  List.filter lasting (scrub s) = List.filter lasting s.
Proof.
  unfold scrub.
  rewrite !re_sub_delete_filter.
  - rewrite remove_marks_filter by (intros c Hc; by apply lasting_inv in Hc as (_ & ? & _)).
    apply filter_filter_weaker. intros c Hc%lasting_inv. unfold not_chinese. by rewrite (proj1 Hc).
  - intros t n E. apply filter_nothing. intros c Hc.
    apply (sublist_subseteq _ _ (sublist_take _ _)) in Hc.
    destruct (lasting c) eqn:L; [|done]. apply lasting_inv in L.
    destruct (m_slash_tail_shape _ _ _ E Hc) as [?|?]; [|tauto]. destruct L as (_ & _ & ? & _). congruence.
  - intros t n E. apply filter_nothing. intros c Hc.
    apply (sublist_subseteq _ _ (sublist_take _ _)) in Hc.
    destruct (lasting c) eqn:L; [|done]. apply lasting_inv in L.
    destruct (m_dash_tail_shape _ _ _ E Hc) as [?|?]; [|tauto]. destruct L as (_ & _ & ? & _). congruence.
  - intros t n E. apply filter_nothing. intros c Hc.
    destruct (lasting c) eqn:L; [|done]. apply lasting_inv in L.
    destruct (m_empty_pair_shape _ _ _ _ _ E Hc) as [?|[?|?]]; [|tauto..].
    destruct L as (_ & _ & ? & _). congruence.
  - intros t n E. apply filter_nothing. intros c Hc.
    destruct (lasting c) eqn:L; [|done]. apply lasting_inv in L.
    destruct (m_empty_pair_shape _ _ _ _ _ E Hc) as [?|[?|?]]; [|tauto..].
    destruct L as (_ & _ & ? & _). congruence.
Qed.

Lemma is_latin_lasting c : is_latin c = true -> lasting c = true.
Proof.
  unfold is_latin. rewrite orb_true_iff, !andb_true_iff, !N.leb_le. intros H.
  unfold lasting, removable. apply negb_true_iff. rewrite !orb_false_iff. repeat split.
  - unfold is_chinese. apply andb_false_iff. rewrite !N.leb_gt. lia.
  - unfold chinese_punct, DQUOTE. cbn [existsb]. rewrite !orb_false_iff, !N.eqb_neq. lia.
  - destruct (isspace c) eqn:E; [|done]. apply isspace_cases in E. lia.
  - unfold SLASH, DASH, LPAREN, RPAREN, LBRACKET, RBRACKET. cbn [existsb].
    rewrite !orb_false_iff, !N.eqb_neq. lia.
Qed.

(** The cleaner deletes nothing but CJK characters, marks of
    [chinese_punct], white space and the characters [/ - ( ) [ ]]: every
    other character of the line is in the output, in the same order and
    as often.  In particular no Latin letter is lost. *)
Theorem cleaner_keeps_other_characters (line : str) :
  List.filter lasting (remove_chinese_line line) = List.filter lasting line
  /\ List.filter is_latin (remove_chinese_line line) = List.filter is_latin line
  /\ has_latin (remove_chinese_line line) = has_latin line.
Proof.
  assert (List.filter lasting (remove_chinese_line line) = List.filter lasting line) as H.
  { rewrite remove_chinese_line_scrub, strip_filter, scrub_keeps_lasting; [done|].
    intros c Hc. unfold lasting, removable. rewrite Hc. by rewrite orb_true_r. }
  assert (List.filter is_latin (remove_chinese_line line) = List.filter is_latin line) as HL.
  { rewrite <- (filter_filter_weaker is_latin lasting) by apply is_latin_lasting.
    rewrite H. apply filter_filter_weaker, is_latin_lasting. }
  split; [done|]. split; [done|].
  unfold has_latin.
  assert (forall s, existsb is_latin s = truthy (List.filter is_latin s)) as E.
  { induction s as [|c r IH]; [done|]. cbn [existsb List.filter]. by destruct (is_latin c). }
  by rewrite !E, HL.
Qed.

Lemma lstrip_all_space s : forallb isspace s = true -> lstrip s = [].
Proof. intros H. unfold lstrip. rewrite span_all by done. apply drop_all. Qed.

Lemma strip_all_space s : forallb isspace s = true -> strip s = [].
Proof.
  intros H. unfold strip, rstrip. rewrite (lstrip_all_space (reverse s)).
  - done.
  - apply forallb_forall. intros c Hc%list_elem_of_In. rewrite elem_of_reverse in Hc.
    exact (forallb_elem isspace s c H Hc).
Qed.

Lemma forallb_sublist (p : char -> bool) (l k : str) :
  l `sublist_of` k -> forallb p k = true -> forallb p l = true.
Proof.
  intros Hs Hk. apply forallb_forall. intros c Hc%list_elem_of_In.
  apply (forallb_elem p k c Hk). by eapply sublist_subseteq.
Qed.

Lemma startswith_elem p s c : startswith p s = true -> c ∈ p -> c ∈ s.
Proof.
  revert s. induction p as [|a p IH]; intros s H Hc; [by apply elem_of_nil in Hc|].
  destruct s as [|b s]; [done|]. cbn [startswith] in H.
  apply andb_prop in H as [->%N.eqb_eq H].
  apply elem_of_cons in Hc as [->|Hc]; [left|right; by apply IH].
Qed.

Lemma contains_elem p s c : contains p s = true -> p <> [] -> c ∈ p -> c ∈ s.
Proof.
  intros H Hp Hc. induction s as [|x r IH]; cbn [contains] in H.
  - destruct p; [done|]. done.
  - apply orb_prop in H as [H|H]; [by eapply startswith_elem|]. right. by apply IH.
Qed.

Lemma no_slash_no_marker line :
  SLASH ∉ line ->
  contains (text "/*") line = false /\ contains (text "*/") line = false.
Proof.
  intros H. split.
  - destruct (contains (text "/*") line) eqn:E; [|done]. exfalso. apply H.
    apply (contains_elem _ _ _ E); [done|]. change (text "/*") with [SLASH; STAR]. left.
  - destruct (contains (text "*/") line) eqn:E; [|done]. exfalso. apply H.
    apply (contains_elem _ _ _ E); [done|]. change (text "*/") with [STAR; SLASH]. right. left.
Qed.

(** A line made of CJK characters, marks of [chinese_punct] and white
    space only is cleaned to the empty string; inside a block comment
    such a line is deleted. *)
Theorem chinese_only_line_vanishes (line : str) :
  (forall c, c ∈ line -> is_chinese c = true \/ c ∈ chinese_punct \/ isspace c = true) ->
  remove_chinese_line line = []
  /\ (has_chinese line = true -> block_line line = []).
Proof.
  intros H.
  assert (remove_chinese_line line = []) as E.
  { rewrite remove_chinese_line_stages.
    apply strip_all_space.
    repeat (eapply forallb_sublist; [apply re_sub_delete_sublist|]).
    apply forallb_forall. intros c Hc%list_elem_of_In.
    apply remove_marks_elem in Hc as [Hc Hm].
    apply list_elem_of_In, filter_In in Hc as [Hc%list_elem_of_In Hn].
    unfold not_chinese in Hn. apply negb_true_iff in Hn.
    destruct (H c Hc) as [?|[?|?]]; [congruence|done|done]. }
  split; [done|]. intros Hc. unfold block_line.
  assert (SLASH ∉ line) as Hs.
  { intros Hin. destruct firm_slash as [F1 F2 F3 _ _].
    destruct (H _ Hin) as [?|[?|?]]; [congruence|done|congruence]. }
  destruct (no_slash_no_marker line Hs) as [-> ->]. cbn [orb]. by rewrite Hc, E.
Qed.

Lemma chinese_only_line_vanishes_witness :
  remove_chinese_line ([SPACE; 0x8bf4; 0x660e; 0xff0c; 0x4e2d; 0x3002; SPACE]) = [].
Proof.
  apply (chinese_only_line_vanishes [SPACE; 0x8bf4; 0x660e; 0xff0c; 0x4e2d; 0x3002; SPACE]).
  intros c Hc.
  repeat (apply elem_of_cons in Hc as [->|Hc];
    [first [by left|by right; right|right; left; vm_compute; by repeat constructor]|]).
  by apply elem_of_nil in Hc.
Defined.

(** ** The markdown line processor, line by line *)

Lemma existsb_filter_latin s : has_latin s = truthy (List.filter is_latin s).
Proof.
  unfold has_latin. induction s as [|c r IH]; [done|].
  cbn [existsb List.filter]. by destruct (is_latin c).
Qed.

Lemma isspace_not_latin c : isspace c = true -> is_latin c = false.
Proof.
  intros H%isspace_cases. unfold is_latin.
  apply orb_false_iff. rewrite !andb_false_iff, !N.leb_gt. lia.
Qed.

Lemma latin_line_is_solid s : has_latin s = true -> is_empty_line s = false.
Proof.
  intros H. unfold is_empty_line. apply negb_false_iff.
  rewrite existsb_filter_latin in H.
  rewrite <- (strip_filter is_latin s) in H by apply isspace_not_latin.
  by destruct (strip s).
Qed.

Lemma cleaner_keeps_latin line :
  has_latin (remove_chinese_line line) = has_latin line.
Proof.
  rewrite !existsb_filter_latin. f_equal.
  rewrite <- (filter_filter_weaker is_latin lasting) by apply is_latin_lasting.
  rewrite remove_chinese_line_scrub, strip_filter, scrub_keeps_lasting.
  - apply filter_filter_weaker, is_latin_lasting.
  - intros c Hc. unfold lasting, removable. rewrite Hc. by rewrite orb_true_r.
Qed.

Lemma emitted_mixed line :
  has_chinese line = true -> has_latin line = true ->
  emitted line = [remove_chinese_line line ++ [NL]].
Proof.
  intros Hc Hl. unfold emitted. rewrite Hc, Hl. cbn [negb andb].
  pose proof (cleaner_keeps_latin line) as H. rewrite Hl in H.
  rewrite (trimmed_not_isspace _ (remove_chinese_line_trimmed line)).
  destruct (remove_chinese_line line); [done|]. done.
Qed.

Lemma emitted_plain line : has_chinese line = false -> emitted line = [line].
Proof. intros Hc. unfold emitted. by rewrite Hc. Qed.

Lemma has_latin_app a b : has_latin (a ++ b) = has_latin a || has_latin b.
Proof. unfold has_latin. apply existsb_app. Qed.

Lemma solid_line_survives_collapse l lines :
  l ∈ lines -> is_empty_line l = false -> l ∈ collapse_blank lines.
Proof.
  intros Hin Hs. rewrite collapse_blank_from.
  assert (l ∈ List.filter solid_line (collapse_from false lines)) as H.
  { rewrite collapse_from_keeps_solid. apply list_elem_of_In, filter_In.
    split; [by apply list_elem_of_In|]. unfold solid_line. by rewrite Hs. }
  by apply list_elem_of_In, filter_In in H as [H%list_elem_of_In _].
Qed.

(** A line with a CJK character and a Latin letter is never dropped:
    the cleaner keeps its Latin letters, so the test on line 57 always
    succeeds, the cleaned line with a newline is appended to [new_lines]
    and reaches the output. *)
Theorem mixed_line_is_always_kept (pre post : list str) (line : str) :
  has_chinese line = true ->
  has_latin line = true ->
  classify_lines (pre ++ line :: post)
  = classify_lines pre ++ (remove_chinese_line line ++ [NL]) :: classify_lines post
  /\ has_latin (remove_chinese_line line) = true
  /\ (remove_chinese_line line ++ [NL]) ∈ process_markdown_file (pre ++ line :: post).
Proof.
  intros Hc Hl.
  assert (classify_lines (pre ++ line :: post)
          = classify_lines pre ++ (remove_chinese_line line ++ [NL]) :: classify_lines post) as E.
  { change (line :: post) with ([line] ++ post). rewrite !classify_lines_app. f_equal.
    rewrite (classify_lines_emitted [line]). cbn [List.map concat].
    by rewrite emitted_mixed. }
  split; [done|]. split; [by rewrite cleaner_keeps_latin|].
  unfold process_markdown_file. apply solid_line_survives_collapse.
  - rewrite E. apply elem_of_app. right. left.
  - apply latin_line_is_solid. by rewrite has_latin_app, cleaner_keeps_latin, Hl.
Qed.

Lemma mixed_line_is_always_kept_witness :
  let line := text "Title " ++ [0x6807; 0x9898] ++ [NL] in
  (remove_chinese_line line ++ [NL]) ∈ process_markdown_file ([[NL]] ++ line :: [[NL]]).
Proof.
  intros line. apply (mixed_line_is_always_kept [[NL]] [[NL]] line); vm_compute; reflexivity.
Defined.

Lemma emitted_count line :
  length (emitted line) = if pure_chinese line then O else 1%nat.
Proof.
  unfold pure_chinese. destruct (has_chinese line) eqn:Hc.
  - destruct (has_latin line) eqn:Hl.
    + by rewrite emitted_mixed.
    + by rewrite emitted_pure.
  - by rewrite emitted_plain.
Qed.

(** The first loop drops the lines that hold CJK characters without any
    Latin letter, and only those: it yields one line for every other
    line of the input. *)
Theorem classification_drops_pure_chinese_only (lines : list str) :
  length (classify_lines lines)
  = length (List.filter (fun l => negb (pure_chinese l)) lines).
Proof.
  rewrite classify_lines_emitted.
  induction lines as [|l ls IH]; [done|].
  cbn [List.map concat List.filter]. rewrite length_app, emitted_count, IH.
  by destruct (pure_chinese l).
Qed.

Lemma output_line_chinese_free lines o :
  o ∈ process_markdown_file lines -> has_chinese o = false.
Proof.
  intros Hin. apply (sublist_subseteq _ _ (collapse_blank_sublist _)) in Hin.
  apply elem_of_classify_lines in Hin as (l & _ & Ho). by apply emitted_no_chinese in Ho.
Qed.

(** No line of the processor's output holds a CJK character. *)
Theorem markdown_output_has_no_chinese (lines : list str) (o : str) :
  o ∈ process_markdown_file lines -> has_chinese o = false.
Proof. apply output_line_chinese_free. Qed.

Lemma markdown_output_has_no_chinese_witness :
  let lines := [text "a " ++ [0x4e2d] ++ [NL]; [0x6587; NL]; text "b"] in
  has_chinese (text "a" ++ [NL]) = false.
Proof.
  intros lines. apply (markdown_output_has_no_chinese lines).
  vm_compute. left.
Defined.

Lemma classify_lines_chinese_free lines :
  (forall l, l ∈ lines -> has_chinese l = false) -> classify_lines lines = lines.
Proof.
  rewrite classify_lines_emitted. induction lines as [|l ls IH]; intros H; [done|].
  cbn [List.map concat]. rewrite emitted_plain by (apply H; left).
  cbn [app]. f_equal. apply IH. intros k Hk. apply H. by right.
Qed.

Lemma collapse_from_settled prev lines :
  no_blank_pair lines ->
  (prev = true -> match lines with l :: _ => is_empty_line l = false | [] => True end) ->
  collapse_from prev lines = lines.
Proof.
  revert prev. induction lines as [|l ls IH]; intros prev Hn Hp; [done|].
  cbn [collapse_from].
  assert (is_empty_line l && prev = false) as ->.
  { destruct prev; [|by rewrite andb_false_r]. by rewrite Hp. }
  f_equal. apply IH.
  - destruct ls; [done|]. apply Hn.
  - intros E. destruct ls as [|k ks]; [done|]. destruct Hn as [Hn _].
    destruct (is_empty_line k) eqn:Ek; [|done]. exfalso. by apply Hn.
Qed.

(** Running the processor on its own output changes nothing. *)
Theorem process_markdown_file_idempotent (lines : list str) :
  process_markdown_file (process_markdown_file lines) = process_markdown_file lines.
Proof.
  unfold process_markdown_file at 1.
  rewrite classify_lines_chinese_free
    by (intros l Hl; by apply output_line_chinese_free in Hl).
  unfold process_markdown_file. rewrite !collapse_blank_from.
  apply collapse_from_settled; [|done]. apply collapse_from_no_blank_pair.
Qed.

(** On input without CJK characters the processor only collapses runs of
    blank lines, and it returns the input as it is when there are none. *)
Theorem chinese_free_markdown (lines : list str) :
  (forall l, l ∈ lines -> has_chinese l = false) ->
  process_markdown_file lines = collapse_blank lines
  /\ (no_blank_pair lines -> process_markdown_file lines = lines).
Proof.
  intros H. unfold process_markdown_file. rewrite classify_lines_chinese_free by done.
  split; [done|]. intros Hn. rewrite collapse_blank_from. by apply collapse_from_settled.
Qed.

Lemma chinese_free_markdown_witness :
  let lines := [text "# Title" ++ [NL]; [NL]; [NL]; text "Keep this line"] in
  process_markdown_file lines = collapse_blank lines.
Proof.
  intros lines. apply (chinese_free_markdown lines). intros l Hl.
  repeat (apply elem_of_cons in Hl as [->|Hl]; [by vm_compute|]). by apply elem_of_nil in Hl.
Defined.

(** A line without CJK character that is not blank is in the output,
    unchanged. *)
Theorem plain_line_is_kept (lines : list str) (l : str) :
  l ∈ lines -> has_chinese l = false -> is_empty_line l = false ->
  l ∈ process_markdown_file lines.
Proof.
  intros Hin Hc Hs. unfold process_markdown_file.
  apply solid_line_survives_collapse; [|done].
  apply elem_of_classify_lines. exists l. split; [done|]. rewrite emitted_plain by done. left.
Qed.

Lemma plain_line_is_kept_witness :
  let keep := text "Keep this line" ++ [NL] in
  keep ∈ process_markdown_file [[0x4e2d; NL]; keep; [NL]].
Proof.
  intros keep. apply (plain_line_is_kept [[0x4e2d; NL]; keep; [NL]] keep).
  - right. left.
  - vm_compute. reflexivity.
  - vm_compute. reflexivity.
Defined.

(** ** The code comment processor on text without CJK comments *)

Lemma matched_piece_chinese_free m s t :
  has_chinese s = false -> Matched t ∈ re_pieces m s -> has_chinese t = false.
Proof.
  intros H (pre & n & _ & ->)%matched_piece_segment.
  rewrite has_chinese_false in *. intros c Hc. apply H. by apply segment_elem in Hc.
Qed.

Lemma block_comment_pass_idle content :
  (forall t, Matched t ∈ re_pieces m_block_comment content -> has_chinese t = false) ->
  block_comment_pass content = content.
Proof.
  intros H. unfold block_comment_pass.
  trans (rebuild unchanged (re_pieces m_block_comment content)); [|apply rebuild_unchanged].
  rewrite re_sub_rebuild. apply rebuild_ext. intros t Ht.
  unfold replace_multiline_comment, unchanged. by rewrite (H t Ht).
Qed.

(** A file none of whose comment matches holds a CJK character is
    returned as it is, whatever its code holds; so is, in particular, a
    file without any CJK character. *)
Theorem code_without_chinese_comments_is_unchanged (content : str) :
  ((forall t, Matched t ∈ re_pieces m_line_comment content -> has_chinese t = false) ->
   (forall t, Matched t ∈ re_pieces m_block_comment content -> has_chinese t = false) ->
   process_code_file content = content)
  /\ (has_chinese content = false -> process_code_file content = content).
Proof.
  assert ((forall t, Matched t ∈ re_pieces m_line_comment content -> has_chinese t = false) ->
          (forall t, Matched t ∈ re_pieces m_block_comment content -> has_chinese t = false) ->
          process_code_file content = content) as H.
  { intros H1 H2. unfold process_code_file.
    rewrite (line_comment_pass_idle _ H1). by apply block_comment_pass_idle. }
  split; [done|]. intros Hc. apply H; intros t Ht; by eapply matched_piece_chinese_free.
Qed.

Lemma code_without_chinese_comments_is_unchanged_witness :
  let content :=
    text "const s = '" ++ [0x4e2d; 0x6587] ++ text "'; // name" ++ [NL] ++ text "/* doc */" in
  process_code_file content = content.
Proof.
  intros content.
  destruct (code_without_chinese_comments_is_unchanged content) as [H _].
  apply H; intros t Ht; vm_compute in Ht;
    repeat (apply elem_of_cons in Ht as [Ht|Ht];
      [first [discriminate Ht|injection Ht as ->; vm_compute; reflexivity]|]);
    by apply elem_of_nil in Ht.
Defined.

(** ** Line comments and line breaks *)

Lemma replace_comment_chinese_free comment : has_chinese (replace_comment comment) = false.
Proof.
  unfold replace_comment. destruct (has_chinese comment) eqn:E; [|done].
  assert (has_chinese (remove_chinese_line comment) = false) as Hc.
  { apply has_chinese_false. intros c Hin. by apply remove_chinese_line_elem in Hin as (_ & ? & _). }
  destruct (truthy (remove_chinese_line comment)); [|done].
  by rewrite has_chinese_app, Hc.
Qed.

Lemma replace_comment_elem comment c :
  c ∈ replace_comment comment -> c ∈ comment \/ c = SLASH.
Proof.
  unfold replace_comment. destruct (has_chinese comment); [|by left].
  change (text "//") with [SLASH; SLASH].
  destruct (truthy (remove_chinese_line comment)).
  - intros [Hs|Hc]%elem_of_app.
    + right. repeat (apply elem_of_cons in Hs as [->|Hs]; [done|]). by apply elem_of_nil in Hs.
    + left. by apply remove_chinese_line_elem in Hc as (? & _).
  - intros Hs. right.
    repeat (apply elem_of_cons in Hs as [->|Hs]; [done|]). by apply elem_of_nil in Hs.
Qed.

Lemma not_newline_all r : forallb not_newline r = true <-> NL ∉ r.
Proof.
  split.
  - intros H Hin. apply (forallb_elem _ _ _ H) in Hin. done.
  - intros H. apply forallb_forall. intros c Hc%list_elem_of_In.
    unfold not_newline. apply negb_true_iff, N.eqb_neq. by intros ->.
Qed.

Lemma m_line_comment_match t n :
  m_line_comment t = Some (S n) -> NL ∉ take (S n) t.
Proof.
  unfold m_line_comment. destruct t as [|a [|b r]]; [done..|].
  destruct ((a =? SLASH) && (b =? SLASH)) eqn:E; [|done].
  apply andb_prop in E as [->%N.eqb_eq ->%N.eqb_eq].
  intros [= <-]. cbn [take]. rewrite !not_elem_of_cons. repeat split; try done.
  apply not_newline_all, span_take_all.
Qed.

Lemma line_comment_piece_one_line content t :
  Matched t ∈ re_pieces m_line_comment content -> (NL ∉ t) /\ (NL ∉ replace_comment t).
Proof.
  intros (pre & n & Hm & ->)%matched_piece_segment.
  pose proof (m_line_comment_match _ _ Hm) as H. split; [done|].
  intros [Hin|Hin]%replace_comment_elem; done.
Qed.

Lemma newlines_app a b : newlines (a ++ b) = (newlines a + newlines b)%nat.
Proof. unfold newlines. by rewrite List.filter_app, length_app. Qed.

Lemma newlines_none s : NL ∉ s -> newlines s = O.
Proof.
  intros H. unfold newlines. rewrite filter_nothing; [done|].
  intros c Hc. apply N.eqb_neq. by intros <-.
Qed.

Lemma newlines_rebuild_le repl ps :
  (forall t, Matched t ∈ ps -> (newlines (repl t) <= newlines t)%nat) ->
  (newlines (rebuild repl ps) <= newlines (rebuild unchanged ps))%nat.
Proof.
  unfold rebuild. induction ps as [|p ps IH]; intros H; [done|].
  cbn [List.map concat]. rewrite !newlines_app.
  specialize (IH (fun t Ht => H t (list_elem_of_further _ _ _ Ht))).
  destruct p as [c|t]; cbn [piece_text]; [lia|].
  pose proof (H t (list_elem_of_here _ _)). unfold unchanged at 1. lia.
Qed.

Lemma newlines_rebuild_eq repl ps :
  (forall t, Matched t ∈ ps -> newlines (repl t) = newlines t) ->
  newlines (rebuild repl ps) = newlines (rebuild unchanged ps).
Proof.
  unfold rebuild. induction ps as [|p ps IH]; intros H; [done|].
  cbn [List.map concat]. rewrite !newlines_app.
  rewrite (IH (fun t Ht => H t (list_elem_of_further _ _ _ Ht))).
  destruct p as [c|t]; cbn [piece_text]; [done|].
  by rewrite (H t (list_elem_of_here _ _)).
Qed.

Lemma line_comment_pass_newlines content :
  newlines (line_comment_pass content) = newlines content.
Proof.
  unfold line_comment_pass. rewrite re_sub_rebuild.
  rewrite <- (rebuild_unchanged m_line_comment content) at 2.
  apply newlines_rebuild_eq. intros t [H1 H2]%line_comment_piece_one_line.
  by rewrite !newlines_none.
Qed.

Lemma m_line_comment_newline b : m_line_comment (NL :: b) = None.
Proof. unfold m_line_comment. by destruct b. Qed.

(** The line-comment pass works line by line: the text before a newline
    is rewritten as if it stood alone, the newline is kept, and the
    rewritten line holds no newline. *)
Theorem line_comment_pass_by_line (a b : str) :
  NL ∉ a ->
  line_comment_pass (a ++ NL :: b) = line_comment_pass a ++ NL :: line_comment_pass b
  /\ (NL ∉ line_comment_pass a).
Proof.
  intros Ha. split.
  - unfold line_comment_pass. induction a as [|c a IH].
    + cbn [app]. by rewrite re_sub_miss by apply m_line_comment_newline.
    + apply not_elem_of_cons in Ha as [Hc Ha]. specialize (IH Ha). cbn [app].
      destruct (m_line_comment (c :: a)) as [n|] eqn:E.
      * unfold m_line_comment in E. destruct a as [|d r]; [done|].
        destruct ((c =? SLASH) && (d =? SLASH)) eqn:Es; [|done]. injection E as <-.
        apply not_elem_of_cons in Ha as [Hd Hr]. apply not_newline_all in Hr.
        assert (m_line_comment (c :: (d :: r) ++ NL :: b) = Some (S (S (length r)))) as E1.
        { unfold m_line_comment. cbn [app]. rewrite Es. by rewrite span_app_stop. }
        assert (m_line_comment (c :: d :: r) = Some (S (S (length r)))) as E2.
        { unfold m_line_comment. rewrite Es. by rewrite span_all. }
        rewrite (re_sub_hit _ _ _ _ _ E1), (re_sub_hit _ _ _ _ _ E2).
        cbn [take drop app]. rewrite take_app_length, drop_app_length, take_ge, drop_ge by lia.
        rewrite re_sub_miss by apply m_line_comment_newline.
        unfold re_sub at 2. cbn [re_sub_from]. by rewrite app_nil_r.
      * assert (m_line_comment (c :: a ++ NL :: b) = None) as E1.
        { unfold m_line_comment in *. destruct a as [|d r]; cbn [app].
          - replace (NL =? SLASH) with false by done. by rewrite andb_false_r.
          - by destruct ((c =? SLASH) && (d =? SLASH)). }
        rewrite (re_sub_miss _ _ _ _ E1), (re_sub_miss _ _ _ _ E). by rewrite IH.
  - intros Hin. pose proof (line_comment_pass_newlines a) as E.
    rewrite (newlines_none a Ha) in E. unfold newlines in E.
    apply list_elem_of_In in Hin.
    assert (In NL (List.filter (N.eqb NL) (line_comment_pass a))) as H
      by (apply filter_In; split; [done|apply N.eqb_refl]).
    destruct (List.filter (N.eqb NL) (line_comment_pass a)); [done|]. done.
Qed.

Lemma line_comment_pass_by_line_witness :
  let a := text "x = 1; // " ++ [0x8bf4] ++ text " one" in
  let b := text "y = 2; // two" in
  line_comment_pass (a ++ NL :: b) = line_comment_pass a ++ NL :: line_comment_pass b.
Proof.
  intros a b. apply (line_comment_pass_by_line a b).
  intros Hin. vm_compute in Hin.
  repeat (apply elem_of_cons in Hin as [Hin|Hin]; [done|]). by apply elem_of_nil in Hin.
Defined.

(** Whatever a line comment is replaced with holds no CJK character, and
    neither a line-comment match nor its replacement holds a newline. *)
Theorem line_comments_come_out_clean (content : str) :
  (forall comment, has_chinese (replace_comment comment) = false)
  /\ (forall t, Matched t ∈ re_pieces m_line_comment content ->
        (NL ∉ t) /\ (NL ∉ replace_comment t)).
Proof.
  split; [apply replace_comment_chinese_free|].
  intros t Ht. by apply line_comment_piece_one_line in Ht.
Qed.

(** ** Block comments, line by line *)

Lemma block_fold ls acc :
  fold_left (fun acc line => acc ++ block_line line) ls acc
  = acc ++ concat (List.map block_line ls).
Proof.
  revert acc. induction ls as [|l ls IH]; intros acc; cbn [fold_left List.map concat].
  - by rewrite app_nil_r.
  - by rewrite IH, app_assoc.
Qed.

Lemma replace_multiline_comment_lines t :
  has_chinese t = true ->
  replace_multiline_comment t = join_nl (concat (List.map block_line (split_nl t))).
Proof. intros H. unfold replace_multiline_comment. by rewrite H, block_fold. Qed.

Lemma split_nl_nonempty t : split_nl t <> [].
Proof.
  induction t as [|c t IH]; [done|]. cbn [split_nl].
  destruct (c =? NL); [done|]. by destruct (split_nl t).
Qed.

Lemma split_nl_line_no_newline t l : l ∈ split_nl t -> NL ∉ l.
Proof.
  revert l. induction t as [|c t IH]; intros l; cbn [split_nl].
  - intros ->%list_elem_of_singleton. apply not_elem_of_nil.
  - destruct (c =? NL) eqn:E.
    + intros [->|H]%elem_of_cons; [apply not_elem_of_nil|by apply IH].
    + pose proof (split_nl_nonempty t) as Hne. revert IH Hne.
      destruct (split_nl t) as [|p ps]; intros IH Hne; [done|].
      intros [->|H]%elem_of_cons.
      * apply not_elem_of_cons. split; [apply N.eqb_neq in E; congruence|].
        apply IH. left.
      * apply IH. by right.
Qed.

Lemma length_split_nl t : length (split_nl t) = S (newlines t).
Proof.
  unfold newlines. induction t as [|c t IH]; [done|]. cbn [split_nl List.filter].
  rewrite (N.eqb_sym NL c). destruct (c =? NL).
  - simpl. by rewrite IH.
  - destruct (split_nl t); [done|]. simpl in *. done.
Qed.

Lemma newlines_join_nl ls :
  (forall l, l ∈ ls -> NL ∉ l) -> newlines (join_nl ls) = pred (length ls).
Proof.
  induction ls as [|l ls IH]; intros H; [done|].
  assert (newlines l = O) as El by (apply newlines_none, H; left).
  destruct ls as [|k ks]; [done|].
  change (join_nl (l :: k :: ks)) with (l ++ NL :: join_nl (k :: ks)).
  change (NL :: join_nl (k :: ks)) with ([NL] ++ join_nl (k :: ks)).
  rewrite !newlines_app, El, IH by (intros x Hx; apply H; by right). done.
Qed.

Lemma block_line_short line : (length (block_line line) <= 1)%nat.
Proof.
  unfold block_line.
  destruct (contains (text "/*") line || contains (text "*/") line); [simpl; lia|].
  destruct (has_chinese line); [|simpl; lia].
  destruct (truthy (remove_chinese_line line)); [|simpl; lia].
  destruct (startswith (text "*") (strip line)); simpl; lia.
Qed.

Lemma block_line_no_newline line o : NL ∉ line -> o ∈ block_line line -> NL ∉ o.
Proof.
  intros Hl. unfold block_line.
  assert (NL ∉ remove_chinese_line line) as Hc.
  { intros Hin. by apply remove_chinese_line_elem in Hin as (? & _). }
  destruct (contains (text "/*") line || contains (text "*/") line);
    [by intros ->%list_elem_of_singleton|].
  destruct (has_chinese line); [|by intros ->%list_elem_of_singleton].
  destruct (truthy (remove_chinese_line line)); [|by intros ?%elem_of_nil].
  destruct (startswith (text "*") (strip line)); intros ->%list_elem_of_singleton; [|done].
  by apply not_elem_of_cons.
Qed.

Lemma block_lines_short ls :
  (length (concat (List.map block_line ls)) <= length ls)%nat.
Proof.
  induction ls as [|l ls IH]; [done|]. cbn [List.map concat].
  rewrite length_app. pose proof (block_line_short l). simpl. lia.
Qed.

Lemma block_lines_no_newline ls o :
  (forall l, l ∈ ls -> NL ∉ l) -> o ∈ concat (List.map block_line ls) -> NL ∉ o.
Proof.
  induction ls as [|l ls IH]; intros H; cbn [List.map concat]; [by intros ?%elem_of_nil|].
  intros [Ho|Ho]%elem_of_app.
  - eapply block_line_no_newline; [|done]. apply H. left.
  - apply IH; [|done]. intros k Hk. apply H. by right.
Qed.

Lemma replace_multiline_comment_newlines t :
  (newlines (replace_multiline_comment t) <= newlines t)%nat.
Proof.
  destruct (has_chinese t) eqn:E.
  - rewrite replace_multiline_comment_lines by done.
    rewrite newlines_join_nl
      by (intros l Hl; eapply block_lines_no_newline; [|done]; apply split_nl_line_no_newline).
    pose proof (block_lines_short (split_nl t)) as H. rewrite length_split_nl in H. lia.
  - unfold replace_multiline_comment. by rewrite E.
Qed.

(** The processor never adds a line to a code file: the line-comment
    pass keeps every newline and the block-comment pass can only take
    lines away. *)
Theorem code_processor_never_adds_lines (content : str) :
  newlines (line_comment_pass content) = newlines content
  /\ (newlines (block_comment_pass content) <= newlines content)%nat
  /\ (newlines (process_code_file content) <= newlines content)%nat.
Proof.
  assert (forall s, (newlines (block_comment_pass s) <= newlines s)%nat) as Hb.
  { intros s. unfold block_comment_pass. rewrite re_sub_rebuild.
    rewrite <- (rebuild_unchanged m_block_comment s) at 2.
    apply newlines_rebuild_le. intros t _. apply replace_multiline_comment_newlines. }
  split; [apply line_comment_pass_newlines|]. split; [apply Hb|].
  unfold process_code_file. rewrite <- (line_comment_pass_newlines content). apply Hb.
Qed.

Lemma split_nl_cons_solid c t :
  c <> NL ->
  exists l0 rest, split_nl t = l0 :: rest /\ split_nl (c :: t) = (c :: l0) :: rest.
Proof.
  intros Hc%N.eqb_neq. cbn [split_nl]. rewrite Hc.
  destruct (split_nl t) as [|l0 rest] eqn:E; [by destruct (split_nl_nonempty t)|].
  by exists l0, rest.
Qed.

Lemma split_nl_last u q :
  NL ∉ q ->
  exists init ln, split_nl u = init ++ [ln] /\ split_nl (u ++ q) = init ++ [ln ++ q].
Proof.
  intros Hq. induction u as [|c u (init & ln & E1 & E2)].
  - exists [], []. split; [done|]. cbn [app]. by apply split_nl_one_line.
  - cbn [app split_nl]. rewrite E1, E2. destruct (c =? NL).
    + by exists ([] :: init), ln.
    + destruct init as [|i0 init]; cbn [app].
      * by exists [], (c :: ln).
      * by exists ((c :: i0) :: init), ln.
Qed.

Lemma contains_suffix q s : q <> [] -> contains q (s ++ q) = true.
Proof.
  intros Hq. assert (startswith q q = true) as Hs.
  { clear. induction q as [|a q IH]; [done|]. cbn [startswith]. by rewrite N.eqb_refl, IH. }
  induction s as [|c s IH]; cbn [app].
  - by apply contains_prefix.
  - cbn [contains]. by rewrite IH, orb_true_r.
Qed.

Lemma join_nl_cons l ls : ls <> [] -> join_nl (l :: ls) = l ++ NL :: join_nl ls.
Proof. by destruct ls. Qed.

Lemma join_nl_snoc ls l : exists x, join_nl (ls ++ [l]) = x ++ l.
Proof.
  induction ls as [|k ls (x & E)]; [by exists []|].
  cbn [app]. destruct (ls ++ [l]) as [|y ys] eqn:Ey; [by destruct ls|].
  change (join_nl (k :: y :: ys)) with (k ++ NL :: join_nl (y :: ys)). rewrite E.
  exists (k ++ NL :: x). by rewrite <- app_assoc.
Qed.

Lemma block_line_marker line :
  contains (text "/*") line = true \/ contains (text "*/") line = true ->
  block_line line = [line].
Proof. unfold block_line. intros [->| ->]; by rewrite ?orb_true_r. Qed.

(** The block-comment rewrite never damages the delimiters: what a block
    comment is replaced with still begins with the open marker and ends
    with the close marker. *)
Theorem block_comment_keeps_its_markers (inner : str) :
  exists body,
    replace_multiline_comment (text "/*" ++ inner ++ text "*/")
    = text "/*" ++ body ++ text "*/".
Proof.
  destruct (has_chinese (text "/*" ++ inner ++ text "*/")) eqn:Hc; cycle 1.
  { exists inner. unfold replace_multiline_comment. by rewrite Hc. }
  rewrite replace_multiline_comment_lines by done.
  change (text "/*") with [SLASH; STAR]. cbn [app].
  destruct (split_nl_last inner (text "*/")) as (init & ln & E1 & E2).
  { intros Hin. vm_compute in Hin.
    repeat (apply elem_of_cons in Hin as [Hin|Hin]; [done|]). by apply elem_of_nil in Hin. }
  destruct (split_nl_cons_solid STAR (inner ++ text "*/")) as (l0 & rest & E3 & E4); [done|].
  destruct (split_nl_cons_solid SLASH (STAR :: inner ++ text "*/")) as (l1 & rest' & E5 & E6);
    [done|].
  rewrite E4 in E5. injection E5 as <- <-. rewrite E6. rewrite E2 in E3.
  assert (contains (text "*/") (ln ++ text "*/") = true) as Hclose by (by apply contains_suffix).
  destruct init as [|i0 init]; cbn [app] in E3; injection E3 as <- <-.
  - exists ln. cbn [List.map concat]. rewrite block_line_marker by (by left). done.
  - cbn [List.map concat]. rewrite block_line_marker by (by left).
    rewrite List.map_app, concat_app. cbn [List.map concat].
    rewrite (block_line_marker (ln ++ text "*/")) by (by right). rewrite app_nil_r.
    destruct (join_nl_snoc (concat (List.map block_line init)) (ln ++ text "*/")) as (x & Ex).
    cbn [app]. rewrite join_nl_cons by (by destruct (concat (List.map block_line init))).
    rewrite Ex. exists (i0 ++ NL :: x ++ ln). cbn [app].
    do 2 f_equal. rewrite <- app_assoc. cbn [app]. by rewrite <- app_assoc.
Qed.

(** ** Running the line-comment pass again *)

Lemma replace_comment_marker r :
  exists r', replace_comment (SLASH :: SLASH :: r) = SLASH :: SLASH :: r'.
Proof.
  unfold replace_comment. change (text "//") with [SLASH; SLASH].
  destruct (has_chinese (SLASH :: SLASH :: r)); [|by exists r].
  destruct (truthy (remove_chinese_line (SLASH :: SLASH :: r))); [|by exists []].
  by exists (remove_chinese_line (SLASH :: SLASH :: r)).
Qed.

Lemma replace_comment_settled comment :
  replace_comment (replace_comment comment) = replace_comment comment.
Proof.
  unfold replace_comment at 1. by rewrite replace_comment_chinese_free.
Qed.

Lemma m_line_comment_hit c r n :
  m_line_comment (c :: r) = Some (S n) ->
  exists r0, c = SLASH /\ r = SLASH :: r0 /\ n = S (span not_newline r0).
Proof.
  unfold m_line_comment. destruct r as [|d r0]; [done|].
  destruct ((c =? SLASH) && (d =? SLASH)) eqn:E; [|done].
  apply andb_prop in E as [->%N.eqb_eq ->%N.eqb_eq]. intros [= <-]. by exists r0.
Qed.

Lemma m_line_comment_by_heads c r r' :
  head r = head r' -> m_line_comment (c :: r) = None -> m_line_comment (c :: r') = None.
Proof.
  unfold m_line_comment. destruct r as [|d r], r' as [|d' r']; try done.
  intros [= <-]. by destruct ((c =? SLASH) && (d =? SLASH)).
Qed.

Lemma line_comment_pass_head s : head (line_comment_pass s) = head s.
Proof.
  unfold line_comment_pass. destruct s as [|c r]; [done|].
  destruct (m_line_comment (c :: r)) as [[|n]|] eqn:E.
  - unfold re_sub. cbn [re_sub_from]. by rewrite E.
  - rewrite (re_sub_hit _ _ _ _ _ E).
    apply m_line_comment_hit in E as (r0 & -> & -> & ->).
    cbn [take]. by destruct (replace_comment_marker (take (span not_newline r0) r0)) as (r' & ->).
  - by rewrite (re_sub_miss _ _ _ _ E).
Qed.

Lemma rest_of_line r0 :
  drop (span not_newline r0) r0 = []
  \/ exists rest, drop (span not_newline r0) r0 = NL :: rest.
Proof.
  destruct (drop (span not_newline r0) r0) as [|c rest] eqn:E; [by left|right].
  apply span_drop_head in E. unfold not_newline in E.
  apply negb_false_iff, N.eqb_eq in E as ->. by exists rest.
Qed.

(** A second run of the line-comment pass changes nothing: the doubled
    marker of a rewritten comment does not grow any further. *)
Theorem line_comment_pass_idempotent (content : str) :
  line_comment_pass (line_comment_pass content) = line_comment_pass content.
Proof.
  induction content as [s IH] using (induction_ltof1 _ (@length char)); unfold ltof in *.
  destruct s as [|c r]; [done|].
  assert (m_line_comment (c :: r) = None ->
          line_comment_pass (line_comment_pass (c :: r)) = line_comment_pass (c :: r)) as Hmiss.
  { intros E. unfold line_comment_pass at 2 3. rewrite (re_sub_miss _ _ _ _ E).
    fold (line_comment_pass r). unfold line_comment_pass at 1.
    rewrite re_sub_miss
      by (eapply m_line_comment_by_heads; [symmetry; apply line_comment_pass_head|done]).
    fold (line_comment_pass (line_comment_pass r)). rewrite IH by (simpl; lia). done. }
  destruct (m_line_comment (c :: r)) as [[|n]|] eqn:E.
  - unfold m_line_comment in E. destruct r as [|d r0]; [done|].
    destruct ((c =? SLASH) && (d =? SLASH)); [|done]. done.
  - unfold line_comment_pass at 2 3. rewrite (re_sub_hit _ _ _ _ _ E).
    pose proof (m_line_comment_match _ _ E) as Hnl.
    apply m_line_comment_hit in E as (r0 & -> & -> & ->). cbn [take drop] in *.
    set (comment := SLASH :: SLASH :: take (span not_newline r0) r0) in *.
    fold (line_comment_pass (drop (span not_newline r0) r0)).
    set (rest := drop (span not_newline r0) r0).
    assert (line_comment_pass (line_comment_pass rest) = line_comment_pass rest) as IHrest.
    { apply IH. unfold rest. rewrite length_drop. simpl. lia. }
    assert (NL ∉ replace_comment comment) as Hout.
    { intros [Hin|Hin]%replace_comment_elem; done. }
    destruct (replace_comment_marker (take (span not_newline r0) r0)) as (r' & Er).
    fold comment in Er.
    assert (line_comment_pass rest = []
            \/ exists tl, line_comment_pass rest = NL :: tl) as Hrest.
    { unfold rest. destruct (rest_of_line r0) as [->|(tl & ->)]; [by left|right].
      unfold line_comment_pass. rewrite re_sub_miss by apply m_line_comment_newline. eauto. }
    assert (m_line_comment (replace_comment comment ++ line_comment_pass rest)
            = Some (S (S (length r')))) as Em.
    { rewrite Er in Hout |- *. apply not_elem_of_cons in Hout as [_ Hout].
      apply not_elem_of_cons in Hout as [_ Hout]. apply not_newline_all in Hout.
      unfold m_line_comment. cbn [app]. replace (SLASH =? SLASH) with true by done. cbn [andb].
      destruct Hrest as [->|(tl & ->)].
      - by rewrite app_nil_r, span_all.
      - by rewrite span_app_stop. }
    unfold line_comment_pass at 1. rewrite Er in Em |- *. cbn [app] in Em |- *.
    rewrite (re_sub_hit _ _ _ _ _ Em). cbn [take drop].
    rewrite take_app_length, drop_app_length.
    fold (line_comment_pass (line_comment_pass rest)). rewrite IHrest.
    rewrite <- Er, replace_comment_settled. by rewrite Er.
  - by apply Hmiss.
Qed.

(** ** Lines stay lines *)

Lemma cleaner_on_terminated_line body :
  NL ∉ body ->
  (NL ∉ remove_chinese_line (body ++ [NL])) /\ (NL ∉ remove_chinese_line body).
Proof.
  intros Hb. split.
  - intros Hin.
    assert (remove_chinese_line (body ++ [NL]) `sublist_of` body) as Hs.
    { apply sublist_snoc_other with (x := NL); [apply remove_chinese_line_sublist|].
      intros Hl. by apply trimmed_last_solid in Hl; [|apply remove_chinese_line_trimmed]. }
    by apply (sublist_subseteq _ _ Hs) in Hin.
  - intros Hin. by apply remove_chinese_line_elem in Hin as (? & _).
Qed.

(** When every input line holds no newline except as its last character,
    so does every output line, and every output line is either an input
    line as it was or a cleaned line: the cleaner's output, which holds no
    newline, followed by exactly one newline. *)
Theorem lines_stay_lines (lines : list str) :
  Forall one_line lines ->
  Forall one_line (process_markdown_file lines)
  /\ (forall o, o ∈ process_markdown_file lines ->
        o ∈ lines
        \/ exists l, l ∈ lines /\ has_chinese l = true
                     /\ o = remove_chinese_line l ++ [NL]
                     /\ (NL ∉ remove_chinese_line l)).
Proof.
  intros H. rewrite Forall_forall in H.
  assert (forall o, o ∈ process_markdown_file lines ->
            o ∈ lines
            \/ exists l, l ∈ lines /\ has_chinese l = true
                         /\ o = remove_chinese_line l ++ [NL]
                         /\ (NL ∉ remove_chinese_line l)) as Hout.
  { intros o Ho. apply (sublist_subseteq _ _ (collapse_blank_sublist _)) in Ho.
    apply elem_of_classify_lines in Ho as (l & Hl & Ho).
    specialize (H l Hl). unfold emitted in Ho.
    destruct (has_chinese l && negb (has_latin l)); [by apply elem_of_nil in Ho|].
    destruct (has_chinese l) eqn:Hc; [|left; by apply list_elem_of_singleton in Ho as ->].
    destruct (truthy (remove_chinese_line l) && negb (str_isspace (remove_chinese_line l)));
      [|by apply elem_of_nil in Ho].
    apply list_elem_of_singleton in Ho as ->. right. exists l.
    repeat split; try done.
    destruct H as (body & Hb & Hl').
    destruct (cleaner_on_terminated_line body Hb) as [H1 H2]. by destruct Hl' as [->| ->]. }
  split; [|done]. apply Forall_forall. intros o Ho.
  destruct (Hout o Ho) as [Hin|(l & Hl & _ & -> & Hnl)]; [by apply H|].
  exists (remove_chinese_line l). split; [done|by right].
Qed.

Lemma lines_stay_lines_witness :
  Forall one_line
    (process_markdown_file [text "Title " ++ [0x6807; 0x9898] ++ [NL]; text "end"]).
Proof.
  apply lines_stay_lines. repeat constructor.
  - exists (text "Title " ++ [0x6807; 0x9898]). split; [|by right].
    intros Hin. vm_compute in Hin.
    repeat (apply elem_of_cons in Hin as [Hin|Hin]; [done|]). by apply elem_of_nil in Hin.
  - exists (text "end"). split; [|by left].
    intros Hin. vm_compute in Hin.
    repeat (apply elem_of_cons in Hin as [Hin|Hin]; [done|]). by apply elem_of_nil in Hin.
Defined.

(** ** Block comments on one line, through both passes *)

Lemma line_comment_pass_one_line a : NL ∉ a -> NL ∉ line_comment_pass a.
Proof.
  intros Ha Hin. pose proof (line_comment_pass_newlines a) as E.
  rewrite (newlines_none a Ha) in E. unfold newlines in E.
  apply list_elem_of_In in Hin.
  assert (In NL (List.filter (N.eqb NL) (line_comment_pass a))) as H
    by (apply filter_In; split; [done|apply N.eqb_refl]).
  by destruct (List.filter (N.eqb NL) (line_comment_pass a)).
Qed.

Lemma m_line_comment_opens t n :
  m_line_comment t = Some n -> startswith (text "//") t = true.
Proof.
  unfold m_line_comment. destruct t as [|a [|b r]]; [done..|].
  change (text "//") with [SLASH; SLASH]. cbn [startswith].
  rewrite (N.eqb_sym SLASH a), (N.eqb_sym SLASH b).
  destruct ((a =? SLASH) && (b =? SLASH)) eqn:E; [|done]. intros _. by rewrite andb_true_r.
Qed.

Lemma no_slashes_no_line_comment s :
  contains (text "//") s = false -> line_comment_pass s = s.
Proof.
  intros H. apply re_sub_no_match. induction s as [|c r IH]; [done|].
  cbn [contains] in H. apply orb_false_iff in H as [Hs Hc]. cbn [re_search].
  destruct (m_line_comment (c :: r)) as [n|] eqn:E; [|by apply IH].
  apply m_line_comment_opens in E. congruence.
Qed.

Lemma one_line_block_comment_with_slashes :
  process_code_file (text "/* see // " ++ [0x8bf4; 0x660e] ++ text " */")
  = text "/* see ////  */".
Proof. by vm_compute. Qed.

(** C2, amended.  The block-comment rewrite returns a block comment whose
    two markers lie on one line exactly as it is, CJK characters
    included, and the block-comment pass leaves every text of one line as
    it is.  What the processor makes of a line that holds such a comment
    is therefore what the line-comment pass alone makes of it: the line
    itself when it holds no [//]. *)
Theorem one_line_block_comment_is_verbatim (before inner after : str) :
  NL ∉ before -> NL ∉ inner -> NL ∉ after ->
  let comment := text "/*" ++ inner ++ text "*/" in
  let line := before ++ comment ++ after in
  replace_multiline_comment comment = comment
  /\ block_comment_pass line = line
  /\ process_code_file line = line_comment_pass line
  /\ (contains (text "//") line = false -> process_code_file line = line).
Proof.
  intros Hb Hi Ha comment line.
  assert (NL ∉ comment) as Hc.
  { unfold comment. rewrite !elem_of_app. intros [Hin|[Hin|Hin]]; [|done|].
    - vm_compute in Hin. repeat (apply elem_of_cons in Hin as [Hin|Hin]; [done|]).
      by apply elem_of_nil in Hin.
    - vm_compute in Hin. repeat (apply elem_of_cons in Hin as [Hin|Hin]; [done|]).
      by apply elem_of_nil in Hin. }
  assert (NL ∉ line) as Hl.
  { unfold line. rewrite !elem_of_app. intros [Hin|[Hin|Hin]]; done. }
  assert (process_code_file line = line_comment_pass line) as E.
  { unfold process_code_file. by apply block_comment_pass_one_line, line_comment_pass_one_line. }
  split; [by apply replace_multiline_comment_one_line|].
  split; [by apply block_comment_pass_one_line|]. split; [done|].
  intros Hs. rewrite E. by apply no_slashes_no_line_comment.
Qed.

Lemma one_line_block_comment_is_verbatim_witness :
  let inner := text " see // " ++ [0x8bf4; 0x660e] ++ text " " in
  let line := text "x = 1; " ++ (text "/*" ++ inner ++ text "*/") ++ text " y" in
  process_code_file line = line_comment_pass line.
Proof.
  intros inner line.
  apply (one_line_block_comment_is_verbatim (text "x = 1; ") inner (text " y"));
    intros Hin; vm_compute in Hin;
    repeat (apply elem_of_cons in Hin as [Hin|Hin]; [done|]); by apply elem_of_nil in Hin.
Defined.

(** ** The apostrophe *)

Lemma remove_chinese_line_keeps_lasting line :
  List.filter lasting (remove_chinese_line line) = List.filter lasting line.
Proof.
  rewrite remove_chinese_line_scrub, strip_filter, scrub_keeps_lasting; [done|].
  intros c Hc. unfold lasting, removable. rewrite Hc. by rewrite orb_true_r.
Qed.

Lemma lasting_occurrences q line :
  lasting q = true ->
  List.filter (N.eqb q) (remove_chinese_line line) = List.filter (N.eqb q) line.
Proof.
  intros Hq.
  assert (forall c, (q =? c) = true -> lasting c = true) as Hw
    by (by intros c ->%N.eqb_eq).
  rewrite <- (filter_filter_weaker (N.eqb q) lasting) by done.
  rewrite remove_chinese_line_keeps_lasting. by apply filter_filter_weaker.
Qed.

(** C3.  The cleaner's output can hold a mark that is written in the
    literal of line 21: the apostrophe stands there, but it is not in
    [chinese_punct] as Python reads the literal, and the cleaner keeps
    every apostrophe of every line ([it's] followed by a CJK character is
    cleaned to [it's]).  The curly quotes, which the literal does not
    hold, are kept as well. *)
Theorem apostrophe_survives_the_cleaner :
  APOSTROPHE ∈ punct_as_written
  /\ (APOSTROPHE ∉ chinese_punct)
  /\ (forall c, c ∈ punct_as_written -> c <> APOSTROPHE -> c ∈ chinese_punct)
  /\ (forall line q, q ∈ [APOSTROPHE; 0x2018; 0x2019; 0x201c; 0x201d] ->
        List.filter (N.eqb q) (remove_chinese_line line) = List.filter (N.eqb q) line)
  /\ remove_chinese_line (text "it's " ++ [0x4e2d]) = text "it's"
  /\ APOSTROPHE ∈ remove_chinese_line (text "it's " ++ [0x4e2d]).
Proof.
  split; [do 14 right; left|]. split.
  { intros Hin. unfold chinese_punct, DQUOTE, APOSTROPHE in Hin.
    repeat (apply elem_of_cons in Hin as [Hin|Hin]; [done|]). by apply elem_of_nil in Hin. }
  split.
  { intros c Hin Hne. unfold punct_as_written in Hin.
    repeat (apply elem_of_cons in Hin as [->|Hin];
      [first [done|unfold chinese_punct; by repeat constructor]|]).
    by apply elem_of_nil in Hin. }
  split.
  { intros line q Hq. apply lasting_occurrences.
    repeat (apply elem_of_cons in Hq as [->|Hq]; [by vm_compute|]). by apply elem_of_nil in Hq. }
  split; [by vm_compute|].
  replace (remove_chinese_line (text "it's " ++ [0x4e2d])) with (text "it's") by (by vm_compute).
  vm_compute. do 2 right. left.
Qed.
